(** * A model of the stream-processing backend (backend/main.py)

    The development follows the Python source class by class:
    [TritonClient.predict], [RTSPProcessor] (frame buffer, detection loop,
    capture loop, result queue), [RTSPManager] (the stream registry),
    [ConnectionManager] (the websocket hub) and [TelegramService] (the
    notification throttle).

    Conventions.
    - Python [int] is [Z]; Python [float] is [Q], an exact rational:
      arithmetic and comparisons between Python floats are exact. The one
      comparison of a NumPy single-precision number with a Python float,
      in [predict], is modelled with its rounding.
    - [time.time()] is a parameter of the function that reads it.
    - A [dict] that is only looked up is a [gmap]; the registry, which is
      iterated in insertion order, is an association list.
    - A raised exception is a value of [PyExn]; a function that may raise
      returns [PyExn + A].
    - Threads and locks are not modelled: every method runs atomically. *)

From Stdlib Require Import ZArith QArith Qminmax Qround Qpower Lia Lqa.
From Stdlib Require Import List Sorting Permutation.
From stdpp Require Import gmap strings.
Import ListNotations.

(** ** Python primitives *)

Inductive PyExn : Type :=
| ValueError (msg : string)
| RuntimeError (msg : string)
| ZeroDivisionError
| HTTPException (status_code : Z) (detail : string).

(** [x < y] on floats. *)
Definition Qltb (x y : Q) : bool :=
  match (x ?= y)%Q with Lt => true | _ => false end.

(** [x > y] and [x >= y]. *)
Definition Qgtb (x y : Q) : bool := Qltb y x.
Definition Qgeb (x y : Q) : bool := Qle_bool y x.

(** [min(a, b)]: the first argument unless the second is smaller. *)
Definition py_min (a b : Q) : Q := if Qltb b a then b else a.

(** [max(a, b)]: the first argument unless the second is larger. *)
Definition py_max (a b : Q) : Q := if Qgtb b a then b else a.

(** [int(x)] truncates toward zero. *)
Definition py_int (x : Q) : Z := Z.quot (Qnum x) (Zpos (Qden x)).

(** [a / b] on floats raises on a zero divisor. *)
Definition py_truediv (a b : Q) : PyExn + Q :=
  if Qeq_bool b 0 then inl ZeroDivisionError else inr (a / b)%Q.

(** [a % b] on ints (sign of the divisor) raises on a zero divisor. *)
Definition py_mod (a b : Z) : PyExn + Z :=
  if (b =? 0)%Z then inl ZeroDivisionError else inr (a mod b)%Z.

(** [l[start:]]: a negative start counts from the end, and both ends are
    clipped to the list. *)
Definition py_slice_from {A : Type} (start : Z) (l : list A) : list A :=
  let n := Z.of_nat (length l) in
  let s := if (start <? 0)%Z then Z.max 0 (n + start) else Z.min start n in
  skipn (Z.to_nat s) l.

(** [l.remove(x)]: deletes the first element equal to [x], raises when
    there is none. *)
Fixpoint list_remove_first (x : nat) (l : list nat) : option (list nat) :=
  match l with
  | [] => None
  | y :: l' =>
      if Nat.eqb y x then Some l'
      else option_map (cons y) (list_remove_first x l')
  end.

Definition py_list_remove (x : nat) (l : list nat) : PyExn + list nat :=
  match list_remove_first x l with
  | Some l' => inr l'
  | None => inl (ValueError "list.remove(x): x not in list")
  end.

(** ** NumPy single precision

    The softmax of [predict] is computed on a [float32] array, so the
    probability is a [numpy.float32]. Comparing it with a Python float
    converts the Python float to single precision first (the promotion
    rule of NumPy 2: a Python scalar takes the type of the NumPy operand)
    and then compares two single-precision numbers. *)

Definition pow2 (e : Z) : Q := (2 ^ e)%Q.

(** The exponent of the power of two at or below a positive [t]. *)
Definition ilog2 (t : Q) : Z :=
  let l := (Z.log2 (Qnum t) - Z.log2 (Zpos (Qden t)))%Z in
  if Qle_bool (pow2 l) t then l else (l - 1)%Z.

(** The result of a conversion to single precision: a number, or an
    infinity when the magnitude is out of range. *)
Inductive rounded32 : Type :=
| finite32 (q : Q)
| infinite32 (negative : bool).

(** The nearest integer, ties to the even one. *)
Definition round_half_even (s : Q) : Z :=
  let d := Qfloor s in
  match ((s - inject_Z d) ?= (1 # 2))%Q with
  | Lt => d
  | Gt => (d + 1)%Z
  | Eq => if Z.even d then d else (d + 1)%Z
  end.

(** The exponent of the last place of the single-precision numbers
    around [t]: 24 significant bits, and no exponent below -149. *)
Definition exponent32 (t : Q) : Z := Z.max (ilog2 t - 23) (-149).

Definition round32_pos (t : Q) : rounded32 :=
  let e := exponent32 t in
  let n := round_half_even (t / pow2 e) in
  let r := (inject_Z n * pow2 e)%Q in
  if Qle_bool (pow2 128) r then infinite32 false else finite32 r.

(** [numpy.float32(t)] for a Python float [t]: round to nearest, ties to
    even. *)
Definition round32 (t : Q) : rounded32 :=
  match (t ?= 0)%Q with
  | Eq => finite32 0
  | Gt => round32_pos t
  | Lt => match round32_pos (- t) with
          | finite32 r => finite32 (- r)
          | infinite32 _ => infinite32 true
          end
  end.

(** A finite [numpy.float32]: sign, significand below [2^24] and exponent
    of the last place. *)
Definition representable32 (m e : Z) : bool :=
  ((0 <=? m) && (m <? 2 ^ 24) && (-149 <=? e) && (e <=? 104))%Z%bool.

Record float32 : Type := {
  f32_negative : bool;
  f32_significand : Z;
  f32_exponent : Z;
  f32_representable : representable32 f32_significand f32_exponent = true
}.

(** [float(p)]: the conversion to a Python float is exact. *)
Definition f32_value (p : float32) : Q :=
  let v := (inject_Z (f32_significand p) * pow2 (f32_exponent p))%Q in
  if f32_negative p then (- v)%Q else v.

(** [p > t] between single-precision numbers. *)
Definition gt32 (p : Q) (t : rounded32) : bool :=
  match t with
  | finite32 q => Qgtb p q
  | infinite32 negative => negative
  end.

(** [p > t] for a [numpy.float32] [p] and a Python float [t]. *)
Definition float32_gt (p : float32) (t : Q) : bool :=
  gt32 (f32_value p) (round32 t).

(** ** Settings and detection results *)

(** The fields of [SystemSettings] read by the processing engine. *)
Record SystemSettings : Type := {
  frame_skip : Z;
  confidence_threshold : Q;
  buffer_size : Z
}.

Definition default_settings : SystemSettings :=
  {| frame_skip := 3; confidence_threshold := 0.7; buffer_size := 16 |}.

Record DetectionResult : Type := {
  stream_id : string;
  timestamp : Q;
  is_violence : bool;
  confidence : Q;
  frame_data : string
}.

(** ** TritonClient.predict

    [outcome] is what the [try] block computed: [Some p] is the softmax
    probability of the violence class, a finite single-precision number
    (a NaN, which the softmax yields when the exponential of a logit
    overflows, is not modelled); [None] stands for any exception (no
    client, failed inference), which [predict] turns into [(False, 0.0)]. *)
Definition predict (settings : SystemSettings) (outcome : option float32)
  : bool * Q :=
  match outcome with
  | Some violence_prob =>
      let threshold := confidence_threshold settings in
      let is_violence := float32_gt violence_prob threshold in
      (is_violence, f32_value violence_prob)
  | None => (false, 0%Q)
  end.

(** ** RTSPProcessor *)

Section Processor.

(** A decoded frame, a normalised frame (the (3, 224, 224) tensor), the
    normalisation of [process_frame], the thumbnail encoder of
    [detect_violence], and the inference backend: given the stacked
    window it yields the violence probability, or fails. *)
Variables RawFrame Frame : Type.
Variable normalize : RawFrame -> Frame.
Variable encode_thumbnail : Frame -> string.
Variable triton : list Frame -> option float32.

Record RTSPProcessor : Type := {
  p_stream_id : string;
  rtsp_url : string;
  name : string;
  triton_client : bool;          (* [None] or a client object *)
  is_running : bool;
  detection_running : bool;
  frame_buffer : list Frame;
  fps : Q;
  total_frames : Z;
  detection_count : Z;
  last_detection : option DetectionResult;
  start_time : Q;
  results_queue : list DetectionResult
}.

(** [RTSPProcessor.__init__]; [name or stream_id] picks the id when the
    name is empty. *)
Definition new_processor (now : Q) (id url nm : string) : RTSPProcessor :=
  {| p_stream_id := id; rtsp_url := url;
     name := if String.eqb nm "" then id else nm;
     triton_client := false;
     is_running := false; detection_running := false;
     frame_buffer := []; fps := 0; total_frames := 0;
     detection_count := 0; last_detection := None;
     start_time := now; results_queue := [] |}.

Definition set_frame_buffer (b : list Frame) (p : RTSPProcessor) : RTSPProcessor :=
  {| p_stream_id := p_stream_id p; rtsp_url := rtsp_url p; name := name p;
     triton_client := triton_client p;
     is_running := is_running p; detection_running := detection_running p;
     frame_buffer := b; fps := fps p; total_frames := total_frames p;
     detection_count := detection_count p; last_detection := last_detection p;
     start_time := start_time p; results_queue := results_queue p |}.

Definition set_triton_client (c : bool) (p : RTSPProcessor) : RTSPProcessor :=
  {| p_stream_id := p_stream_id p; rtsp_url := rtsp_url p; name := name p;
     triton_client := c;
     is_running := is_running p; detection_running := detection_running p;
     frame_buffer := frame_buffer p; fps := fps p; total_frames := total_frames p;
     detection_count := detection_count p; last_detection := last_detection p;
     start_time := start_time p; results_queue := results_queue p |}.

Definition set_results_queue (q : list DetectionResult) (p : RTSPProcessor)
  : RTSPProcessor :=
  {| p_stream_id := p_stream_id p; rtsp_url := rtsp_url p; name := name p;
     triton_client := triton_client p;
     is_running := is_running p; detection_running := detection_running p;
     frame_buffer := frame_buffer p; fps := fps p; total_frames := total_frames p;
     detection_count := detection_count p; last_detection := last_detection p;
     start_time := start_time p; results_queue := q |}.

(** The bookkeeping of a positive detection:
    [detection_count += 1; last_detection = result]. *)
Definition record_detection (r : DetectionResult) (p : RTSPProcessor)
  : RTSPProcessor :=
  {| p_stream_id := p_stream_id p; rtsp_url := rtsp_url p; name := name p;
     triton_client := triton_client p;
     is_running := is_running p; detection_running := detection_running p;
     frame_buffer := frame_buffer p; fps := fps p; total_frames := total_frames p;
     detection_count := (detection_count p + 1)%Z; last_detection := Some r;
     start_time := start_time p; results_queue := results_queue p |}.

Definition set_capture_stats (f : Q) (n : Z) (p : RTSPProcessor) : RTSPProcessor :=
  {| p_stream_id := p_stream_id p; rtsp_url := rtsp_url p; name := name p;
     triton_client := triton_client p;
     is_running := is_running p; detection_running := detection_running p;
     frame_buffer := frame_buffer p; fps := f; total_frames := n;
     detection_count := detection_count p; last_detection := last_detection p;
     start_time := start_time p; results_queue := results_queue p |}.

(** *** The frame buffer

    The body of [process_frame] under the lock: append, then keep
    [frame_buffer[-current_buffer_size:]] when the buffer is longer than
    the setting. *)
Definition push_frame (current_buffer_size : Z) (frame : Frame)
    (buffer : list Frame) : list Frame :=
  let buffer := buffer ++ [frame] in
  if (Z.of_nat (length buffer) >? current_buffer_size)%Z
  then py_slice_from (- current_buffer_size) buffer
  else buffer.

Definition process_frame (settings : SystemSettings) (frame : RawFrame)
    (p : RTSPProcessor) : RTSPProcessor :=
  set_frame_buffer
    (push_frame (buffer_size settings) (normalize frame) (frame_buffer p)) p.

(** Pushing a sequence of frames under one setting. *)
Definition process_frames (settings : SystemSettings) (frames : list RawFrame)
    (p : RTSPProcessor) : RTSPProcessor :=
  fold_left (fun q f => process_frame settings f q) frames p.

(** *** Detection

    [detect_violence] returns the result (or [None]), the processor and
    the windows handed to [triton_client.predict] during the call.
    [np.stack] of an empty list raises, which the handler turns into
    [triton_client = None; return None]. *)
Definition detect_violence (settings : SystemSettings) (now : Q)
    (p : RTSPProcessor)
  : option DetectionResult * RTSPProcessor * list (list Frame) :=
  let current_buffer_size := buffer_size settings in
  if (Z.of_nat (length (frame_buffer p)) <? current_buffer_size)%Z
  then (None, p, [])
  else
    let frame_buffer_copy := frame_buffer p in
    match rev frame_buffer_copy with
    | [] => (None, set_triton_client false p, [])
    | last_frame :: _ =>
        let p := set_triton_client true p in
        let '(violence, conf) := predict settings (triton frame_buffer_copy) in
        let result :=
          {| stream_id := p_stream_id p; timestamp := now;
             is_violence := violence; confidence := conf;
             frame_data := encode_thumbnail last_frame |} in
        let p := if violence then record_detection result p else p in
        (Some result, p, [frame_buffer_copy])
    end.

(** One iteration of the [while] loop of [detection_loop]. *)
Definition detection_iteration (settings : SystemSettings) (now : Q)
    (p : RTSPProcessor) : RTSPProcessor * list (list Frame) :=
  let current_buffer_size := buffer_size settings in
  let buffer_size := Z.of_nat (length (frame_buffer p)) in
  if (buffer_size >=? current_buffer_size)%Z
  then
    match detect_violence settings now p with
    | (Some result, p, calls) =>
        (set_results_queue (results_queue p ++ [result]) p, calls)
    | (None, p, calls) => (p, calls)
    end
  else (p, []).

(** *** Capture

    The fps update of [run_detection_loop]. *)
Definition update_fps (current_time last_time : Q) (fps : Q) : PyExn + Q :=
  if Qgtb (current_time - last_time) 0
  then py_truediv 1 (current_time - last_time)
  else inr fps.

(** One iteration of the capture loop after a successful read: the new
    processor and the new [last_time], or the exception that makes the
    loop [break]. *)
Definition capture_iteration (settings : SystemSettings)
    (frame : RawFrame) (current_time last_time : Q) (p : RTSPProcessor)
  : PyExn + (RTSPProcessor * Q) :=
  match update_fps current_time last_time (fps p) with
  | inl e => inl e
  | inr f =>
      match py_mod (total_frames p) (frame_skip settings) with
      | inl e => inl e
      | inr r =>
          let p := set_capture_stats f (total_frames p) p in
          let p := if (r =? 0)%Z then process_frame settings frame p else p in
          inr (set_capture_stats (fps p) (total_frames p + 1)%Z p, current_time)
      end
  end.

(** *** The result queue

    [get_latest_results]: pops from the front of the queue while it is
    not empty and fewer than [max_results] results were taken. *)
Fixpoint get_latest_results_loop (max_results : Z)
    (queue results : list DetectionResult)
  : list DetectionResult * list DetectionResult :=
  match queue with
  | [] => (results, [])
  | result :: queue' =>
      if (Z.of_nat (length results) <? max_results)%Z
      then get_latest_results_loop max_results queue' (results ++ [result])
      else (results, queue)
  end.

Definition get_latest_results (max_results : Z) (p : RTSPProcessor)
  : list DetectionResult * RTSPProcessor :=
  let '(results, rest) :=
    get_latest_results_loop max_results (results_queue p) [] in
  (results, set_results_queue rest p).

(** The default of the [max_results] parameter. *)
Definition default_max_results : Z := 10.

(** ** RTSPManager: the registry

    [streams] is a dict iterated in insertion order: an association
    list with one entry per key. *)
Definition Streams : Type := list (string * RTSPProcessor).

Fixpoint streams_get (id : string) (streams : Streams) : option RTSPProcessor :=
  match streams with
  | [] => None
  | (k, p) :: rest => if String.eqb k id then Some p else streams_get id rest
  end.

(** [stream_id in self.streams] *)
Definition streams_mem (id : string) (streams : Streams) : bool :=
  match streams_get id streams with Some _ => true | None => false end.

(** [self.streams[stream_id] = processor] *)
Fixpoint streams_set (id : string) (p : RTSPProcessor) (streams : Streams)
  : Streams :=
  match streams with
  | [] => [(id, p)]
  | (k, q) :: rest =>
      if String.eqb k id then (k, p) :: rest
      else (k, q) :: streams_set id p rest
  end.

(** The [try] block of [add_stream]. *)
Definition add_stream_body (now : Q) (id url nm : string) (streams : Streams)
  : PyExn + Streams :=
  if streams_mem id streams
  then inl (ValueError ("Stream " ++ id ++ " already exists")%string)
  else inr (streams_set id (new_processor now id url nm) streams).

(** [add_stream]: every exception is caught and reported as [False]. *)
Definition add_stream (now : Q) (id url nm : string) (streams : Streams)
  : bool * Streams :=
  match add_stream_body now id url nm streams with
  | inr streams' => (true, streams')
  | inl _ => (false, streams)
  end.

(** The handler of [POST /api/streams]: the [HTTPException] raised in
    the [try] block on failure is caught by the handler's own
    [except Exception as e] and raised again with status 400 and
    [str(e)] as detail; [str] is the framework's rendering. *)
Definition post_api_streams (str : PyExn -> string) (now : Q)
    (id url nm : string) (streams : Streams)
  : (PyExn + string) * Streams :=
  let '(success, streams') := add_stream now id url nm streams in
  let attempt : PyExn + string :=
    if success
    then inr ("Stream " ++ id ++ " added successfully")%string
    else inl (HTTPException 400 "Failed to add stream") in
  match attempt with
  | inr message => (inr message, streams')
  | inl e => (inl (HTTPException 400 (str e)), streams')
  end.

(** [all_results.sort(key=lambda x: x.timestamp, reverse=True)]: a stable
    sort, so results with equal timestamps keep their relative order. *)
Fixpoint insert_desc (r : DetectionResult) (l : list DetectionResult)
  : list DetectionResult :=
  match l with
  | [] => [r]
  | r' :: l' =>
      if Qltb (timestamp r) (timestamp r') then r' :: insert_desc r l'
      else r :: l
  end.

Definition sort_by_timestamp_desc (l : list DetectionResult)
  : list DetectionResult :=
  fold_right insert_desc [] l.

(** The [for] loop of [get_latest_detections]: drains each processor in
    turn and extends [all_results]. *)
Fixpoint drain_streams (streams : Streams)
  : list DetectionResult * Streams :=
  match streams with
  | [] => ([], [])
  | (id, p) :: rest =>
      let '(results, p') := get_latest_results default_max_results p in
      let '(more, rest') := drain_streams rest in
      (results ++ more, (id, p') :: rest')
  end.

Definition get_latest_detections (streams : Streams)
  : list DetectionResult * Streams :=
  let '(all_results, streams') := drain_streams streams in
  (sort_by_timestamp_desc all_results, streams').

End Processor.

Arguments p_stream_id {Frame} _.
Arguments rtsp_url {Frame} _.
Arguments name {Frame} _.
Arguments triton_client {Frame} _.
Arguments is_running {Frame} _.
Arguments detection_running {Frame} _.
Arguments frame_buffer {Frame} _.
Arguments fps {Frame} _.
Arguments total_frames {Frame} _.
Arguments detection_count {Frame} _.
Arguments last_detection {Frame} _.
Arguments start_time {Frame} _.
Arguments results_queue {Frame} _.
Arguments new_processor {Frame} _ _ _ _.
Arguments set_frame_buffer {Frame} _ _.
Arguments set_triton_client {Frame} _ _.
Arguments set_results_queue {Frame} _ _.
Arguments record_detection {Frame} _ _.
Arguments set_capture_stats {Frame} _ _ _.
Arguments push_frame {Frame} _ _ _.
Arguments process_frame {RawFrame Frame} _ _ _ _.
Arguments process_frames {RawFrame Frame} _ _ _ _.
Arguments detect_violence {Frame} _ _ _ _ _.
Arguments detection_iteration {Frame} _ _ _ _ _.
Arguments capture_iteration {RawFrame Frame} _ _ _ _ _ _.
Arguments get_latest_results {Frame} _ _.
Arguments streams_get {Frame} _ _.
Arguments streams_mem {Frame} _ _.
Arguments streams_set {Frame} _ _ _.
Arguments add_stream_body {Frame} _ _ _ _ _.
Arguments add_stream {Frame} _ _ _ _ _.
Arguments post_api_streams {Frame} _ _ _ _ _ _.
Arguments drain_streams {Frame} _.
Arguments get_latest_detections {Frame} _.

(** ** ConnectionManager

    A websocket object is identified by a number; [active_connections]
    is a Python list. A method returns the exception it raised, if any,
    and the list it leaves behind. *)
Definition WebSocket : Type := nat.

(** [connect]: [accept_raises] is the outcome of [await websocket.accept()],
    a call into the web framework. *)
Definition connect (accept_raises : option PyExn) (websocket : WebSocket)
    (active_connections : list WebSocket) : (PyExn + unit) * list WebSocket :=
  match accept_raises with
  | Some e => (inl e, active_connections)
  | None => (inr tt, active_connections ++ [websocket])
  end.

Definition disconnect (websocket : WebSocket)
    (active_connections : list WebSocket) : (PyExn + unit) * list WebSocket :=
  match py_list_remove websocket active_connections with
  | inl e => (inl e, active_connections)
  | inr l => (inr tt, l)
  end.

(** [broadcast]: [send_ok c] tells whether [send_text] on [c] returned
    normally; the subscribers whose send raised are removed afterwards. *)
Definition broadcast (send_ok : WebSocket -> bool)
    (active_connections : list WebSocket) : (PyExn + unit) * list WebSocket :=
  let disconnected :=
    List.filter (fun c => negb (send_ok c)) active_connections in
  fold_left
    (fun st connection =>
       match st with
       | (inr _, l) => disconnect connection l
       | (inl e, l) => (inl e, l)
       end)
    disconnected (inr tt, active_connections).

(** ** TelegramService: the notification throttle *)

(** The dict stored in [violence_events]; the keys ['start_time'] and
    ['last_detection'] carry the prefix [ev_]. *)
Record EventInfo : Type := {
  ev_start_time : Q;
  ev_last_detection : Q;
  notification_count : Z;
  max_confidence : Q
}.

(** [current_detection_confidence] is an attribute that exists only once
    [handle_detection] has set it ([hasattr]). *)
Record TelegramService : Type := {
  enabled : bool;
  notification_interval : Z;
  max_notifications : Z;
  current_detection_confidence : option Q;
  last_notification_time : gmap string Q;
  violence_events : gmap string EventInfo
}.

(** [TelegramService.__init__] *)
Definition new_telegram_service : TelegramService :=
  {| enabled := false; notification_interval := 300; max_notifications := 5;
     current_detection_confidence := None;
     last_notification_time := ∅; violence_events := ∅ |}.

Definition set_throttle (last : gmap string Q) (events : gmap string EventInfo)
    (s : TelegramService) : TelegramService :=
  {| enabled := enabled s; notification_interval := notification_interval s;
     max_notifications := max_notifications s;
     current_detection_confidence := current_detection_confidence s;
     last_notification_time := last; violence_events := events |}.

Definition set_current_detection_confidence (c : Q) (s : TelegramService)
  : TelegramService :=
  {| enabled := enabled s; notification_interval := notification_interval s;
     max_notifications := max_notifications s;
     current_detection_confidence := Some c;
     last_notification_time := last_notification_time s;
     violence_events := violence_events s |}.

(** The fields of [TelegramSettings] that the throttle reads; both
    numbers are plain [int] fields, so that any integer is accepted. *)
Record TelegramSettings : Type := {
  ts_enabled : bool;
  ts_notification_interval : Z;
  ts_max_notifications : Z
}.

(** [TelegramService.update_settings]: the settings are replaced, the
    open episodes stay as they are. *)
Definition update_settings (settings : TelegramSettings) (s : TelegramService)
  : TelegramService :=
  {| enabled := ts_enabled settings;
     notification_interval := ts_notification_interval settings;
     max_notifications := ts_max_notifications settings;
     current_detection_confidence := current_detection_confidence s;
     last_notification_time := last_notification_time s;
     violence_events := violence_events s |}.

(** The coroutine handed to [asyncio.create_task] when an episode ends. *)
Inductive Task : Type :=
| send_final_notification (stream_id : string) (duration : Z)
    (event_info : EventInfo).

(** The interval between notifications of a running episode:
    [base_interval * (1 + notification_count * 0.5)], at most 1800. *)
Definition adaptive_interval (base_interval count : Z) : Q :=
  let adaptive_interval :=
    (inject_Z base_interval * (1 + inject_Z count * 0.5))%Q in
  py_min adaptive_interval 1800.

(** [should_send_notification]: the decision, the service afterwards and
    the tasks spawned. *)
Definition should_send_notification (current_time : Q) (stream_id : string)
    (is_violence : bool) (s : TelegramService)
  : bool * TelegramService * list Task :=
  if negb is_violence then
    let '(events, tasks) :=
      match violence_events s !! stream_id with
      | Some event_info =>
          let duration := py_int (current_time - ev_start_time event_info) in
          (delete stream_id (violence_events s),
           [send_final_notification stream_id duration event_info])
      | None => (violence_events s, [])
      end in
    (false, set_throttle (delete stream_id (last_notification_time s)) events s,
     tasks)
  else
    match violence_events s !! stream_id with
    | None =>
        let event_info :=
          {| ev_start_time := current_time; ev_last_detection := current_time;
             notification_count := 0; max_confidence := 0.0 |} in
        (true,
         set_throttle (<[stream_id := current_time]> (last_notification_time s))
           (<[stream_id := event_info]> (violence_events s)) s,
         [])
    | Some event_info =>
        let max_conf :=
          match current_detection_confidence s with
          | Some c => py_max (max_confidence event_info) c
          | None => max_confidence event_info
          end in
        let event_info :=
          {| ev_start_time := ev_start_time event_info;
             ev_last_detection := current_time;
             notification_count := notification_count event_info;
             max_confidence := max_conf |} in
        let last_notification :=
          default 0%Q (last_notification_time s !! stream_id) in
        let time_since_last := (current_time - last_notification)%Q in
        if (notification_count event_info >=? max_notifications s)%Z then
          (false,
           set_throttle (last_notification_time s)
             (<[stream_id := event_info]> (violence_events s)) s,
           [])
        else
          let interval :=
            adaptive_interval (notification_interval s)
              (notification_count event_info) in
          if Qgeb time_since_last interval then
            let event_info :=
              {| ev_start_time := ev_start_time event_info;
                 ev_last_detection := ev_last_detection event_info;
                 notification_count := (notification_count event_info + 1)%Z;
                 max_confidence := max_confidence event_info |} in
            (true,
             set_throttle
               (<[stream_id := current_time]> (last_notification_time s))
               (<[stream_id := event_info]> (violence_events s)) s,
             [])
          else
            (false,
             set_throttle (last_notification_time s)
               (<[stream_id := event_info]> (violence_events s)) s,
             [])
    end.

(** The headline of a notification. *)
Inductive MessageType : Type :=
| ViolenceDetectionStarted
| ViolenceContinues
| ViolenceOngoing
| ViolenceDetectionAlert.

Record Message : Type := {
  message_type : MessageType;
  message_stream : string;
  message_confidence : Q;
  message_max_confidence : option Q;
  message_duration : option Z;
  message_number : option Z;
  message_photo : string
}.

(** [handle_detection]: [now] is the clock read by the throttle,
    [now_msg] the one read while the message is formatted. The message
    is what is handed to [send_message]. *)
Definition handle_detection (now now_msg : Q) (detection : DetectionResult)
    (s : TelegramService) : option Message * TelegramService * list Task :=
  if negb (enabled s) then (None, s, [])
  else
    let s := set_current_detection_confidence (confidence detection) s in
    let '(send, s, tasks) :=
      should_send_notification now (stream_id detection)
        (is_violence detection) s in
    if send then
      let message :=
        match violence_events s !! stream_id detection with
        | Some event_info =>
            let count := notification_count event_info in
            {| message_type :=
                 if (count =? 0)%Z then ViolenceDetectionStarted
                 else if (count =? 1)%Z then ViolenceContinues
                 else ViolenceOngoing;
               message_stream := stream_id detection;
               message_confidence := confidence detection;
               message_max_confidence := Some (max_confidence event_info);
               message_duration :=
                 Some (py_int (now_msg - ev_start_time event_info));
               message_number := Some (count + 1)%Z;
               message_photo := frame_data detection |}
        | None =>
            {| message_type := ViolenceDetectionAlert;
               message_stream := stream_id detection;
               message_confidence := confidence detection;
               message_max_confidence := None;
               message_duration := None;
               message_number := None;
               message_photo := frame_data detection |}
        end in
      (Some message, s, tasks)
    else (None, s, tasks).

(** A run of the throttle: the orchestrator feeds the drained detections
    to [handle_detection] one after the other. A call carries the two
    clock readings and the detection; a step records the service before
    the call, the message sent (if any) and the service afterwards. *)
Record Call : Type := {
  call_time : Q;
  call_msg_time : Q;
  call_detection : DetectionResult
}.

Record Step : Type := {
  step_before : TelegramService;
  step_call : Call;
  step_message : option Message;
  step_after : TelegramService
}.

Fixpoint run_detections (calls : list Call) (s : TelegramService) : list Step :=
  match calls with
  | [] => []
  | c :: calls' =>
      let '(message, s', _) :=
        handle_detection (call_time c) (call_msg_time c) (call_detection c) s in
      {| step_before := s; step_call := c; step_message := message;
         step_after := s' |} :: run_detections calls' s'
  end.

(** The notification count of the open episode of a stream, 0 when the
    stream is idle. *)
Definition episode_count (stream_id : string) (s : TelegramService) : Z :=
  match violence_events s !! stream_id with
  | Some event_info => notification_count event_info
  | None => 0
  end.

(** ** Notions used in the statements *)

(** The episode record written when an episode opens. *)
Definition opening_event (current_time : Q) : EventInfo :=
  {| ev_start_time := current_time; ev_last_detection := current_time;
     notification_count := 0; max_confidence := 0.0 |}.

(** A call concerns a stream. *)
Definition call_stream (c : Call) : string := stream_id (call_detection c).

(** The stream has an open episode (state IN_EVENT). *)
Definition is_open (stream_id : string) (s : TelegramService) : Prop :=
  violence_events s !! stream_id <> None.

(** The "started" notification a stream may still get: one when idle. *)
Definition pending_start (stream_id : string) (s : TelegramService) : Z :=
  match violence_events s !! stream_id with
  | None => 1
  | Some _ => 0
  end.

(** What the claim on the notification count says of one step of a run
    started with the cap [cap]; a cap below 0 bounds the count by 0, the
    count of an episode that has just been opened. *)
Definition step_respects_cap (stream_id : string) (cap : Z) (st : Step) : Prop :=
  max_notifications (step_after st) = cap
  /\ (episode_count stream_id (step_before st)
      <= episode_count stream_id (step_after st) <= Z.max 0 cap)%Z
  /\ (call_stream (step_call st) = stream_id ->
      is_open stream_id (step_before st) ->
      (cap <= episode_count stream_id (step_before st))%Z ->
      step_message st = None
      /\ episode_count stream_id (step_after st)
         = episode_count stream_id (step_before st)).

(** Within an episode of a stream every detection of that stream is an
    event. *)
Definition events_only (stream_id : string) (calls : list Call) : Prop :=
  Forall (fun c => call_stream c = stream_id ->
                   is_violence (call_detection c) = true) calls.

(** The number of messages sent for a stream during a run. *)
Definition sent_for (stream_id : string) (st : Step) : bool :=
  match step_message st with
  | Some _ => String.eqb (call_stream (step_call st)) stream_id
  | None => false
  end.

Definition messages_for (stream_id : string) (trace : list Step) : nat :=
  length (List.filter (sent_for stream_id) trace).

(** The [c] last elements of a list, in order. *)
Definition most_recent {A : Type} (c : nat) (l : list A) : list A :=
  skipn (length l - c) l.

(** Newest first. *)
Definition newer_or_equal (a b : DetectionResult) : Prop :=
  (timestamp b <= timestamp a)%Q.

(** What a registry entry hands over in one drain, and what it keeps. *)
Definition drained {Frame : Type} (e : string * RTSPProcessor Frame)
  : list DetectionResult :=
  firstn 10 (results_queue (snd e)).

Definition kept {Frame : Type} (e : string * RTSPProcessor Frame)
  : string * RTSPProcessor Frame :=
  (fst e, set_results_queue (skipn 10 (results_queue (snd e))) (snd e)).

(** ** Sample data for the worked examples *)

(** The single-precision numbers nearest to 0.9, 0.8, 0.7, 0.65 and 0.5. *)
Definition float32_0_9 : float32 :=
  {| f32_negative := false; f32_significand := 15099494;
     f32_exponent := -24; f32_representable := eq_refl |}.

Definition float32_0_8 : float32 :=
  {| f32_negative := false; f32_significand := 13421773;
     f32_exponent := -24; f32_representable := eq_refl |}.

Definition float32_0_7 : float32 :=
  {| f32_negative := false; f32_significand := 11744051;
     f32_exponent := -24; f32_representable := eq_refl |}.

Definition float32_0_65 : float32 :=
  {| f32_negative := false; f32_significand := 10905190;
     f32_exponent := -24; f32_representable := eq_refl |}.

Definition float32_0_5 : float32 :=
  {| f32_negative := false; f32_significand := 8388608;
     f32_exponent := -24; f32_representable := eq_refl |}.

(** [numpy.float32(t)] is the number [p]. *)
Definition is_float32_of (t : Q) (p : float32) : bool :=
  match round32 t with
  | finite32 r => Qeq_bool r (f32_value p)
  | infinite32 _ => false
  end.

Definition result_at (id : string) (t : Z) : DetectionResult :=
  {| stream_id := id; timestamp := inject_Z t; is_violence := false;
     confidence := 0.1; frame_data := "" |}.

Definition processor_with_queue (id : string) (queue : list DetectionResult)
  : RTSPProcessor nat :=
  set_results_queue queue (new_processor 0 id "rtsp://cam" "").

(** An enabled service with the default interval (300 s) and cap (5). *)
Definition enabled_service : TelegramService :=
  {| enabled := true; notification_interval := 300; max_notifications := 5;
     current_detection_confidence := None;
     last_notification_time := ∅; violence_events := ∅ |}.

(** An event detection of a stream handled at time [t]. *)
Definition event_call (id : string) (t : Z) (conf : Q) : Call :=
  {| call_time := inject_Z t; call_msg_time := inject_Z t;
     call_detection :=
       {| stream_id := id; timestamp := inject_Z t; is_violence := true;
          confidence := conf; frame_data := "" |} |}.

(** ** Further operations of the backend *)

(** [l[:stop]]: a negative stop counts from the end. *)
Definition py_slice_to {A : Type} (stop : Z) (l : list A) : list A :=
  let n := Z.of_nat (length l) in
  let e := if (stop <? 0)%Z then Z.max 0 (n + stop) else Z.min stop n in
  firstn (Z.to_nat e) l.

(** [RTSPProcessor.start]: nothing when already running; otherwise the
    buffer and the statistics are reset and both flags raised. The two
    threads it spawns are the capture loop and the detection loop. *)
Definition start {Frame : Type} (now : Q) (p : RTSPProcessor Frame)
  : RTSPProcessor Frame :=
  if is_running p then p
  else
    {| p_stream_id := p_stream_id p; rtsp_url := rtsp_url p; name := name p;
       triton_client := triton_client p;
       is_running := true; detection_running := true;
       frame_buffer := []; fps := 0; total_frames := 0;
       detection_count := 0; last_detection := None;
       start_time := now; results_queue := results_queue p |}.

(** [RTSPProcessor.stop]: both flags lowered and the client dropped. *)
Definition stop {Frame : Type} (p : RTSPProcessor Frame) : RTSPProcessor Frame :=
  {| p_stream_id := p_stream_id p; rtsp_url := rtsp_url p; name := name p;
     triton_client := false;
     is_running := false; detection_running := false;
     frame_buffer := frame_buffer p; fps := fps p;
     total_frames := total_frames p;
     detection_count := detection_count p;
     last_detection := last_detection p;
     start_time := start_time p; results_queue := results_queue p |}.

(** [self.is_running = ...] *)
Definition set_is_running {Frame : Type} (b : bool) (p : RTSPProcessor Frame)
  : RTSPProcessor Frame :=
  {| p_stream_id := p_stream_id p; rtsp_url := rtsp_url p; name := name p;
     triton_client := triton_client p;
     is_running := b; detection_running := detection_running p;
     frame_buffer := frame_buffer p; fps := fps p;
     total_frames := total_frames p;
     detection_count := detection_count p;
     last_detection := last_detection p;
     start_time := start_time p; results_queue := results_queue p |}.

(** The [while] loop of [run_detection_loop] over the reads the source
    delivers until the shutdown is signalled: a read is the frame (or
    [None] when [ret] is false) and the clock at that moment. A failed
    read and an exception both [break]; when the exception comes from
    the frame-skip test the fps assignment before it has taken place. *)
Fixpoint capture_frames {RawFrame Frame : Type} (normalize : RawFrame -> Frame)
    (settings : SystemSettings) (reads : list (option RawFrame * Q))
    (last_time : Q) (p : RTSPProcessor Frame) : RTSPProcessor Frame :=
  match reads with
  | [] => p
  | (read, current_time) :: reads' =>
      if negb (is_running p) then p
      else
        match read with
        | None => p
        | Some frame =>
            match capture_iteration normalize settings frame current_time
                    last_time p with
            | inr (p', last_time') =>
                capture_frames normalize settings reads' last_time' p'
            | inl _ =>
                match update_fps current_time last_time (fps p) with
                | inr f => set_capture_stats f (total_frames p) p
                | inl _ => p
                end
            end
        end
  end.

(** [run_detection_loop]: returns at once when the connection fails;
    otherwise the loop, and [is_running = False] in the [finally]. *)
Definition run_detection_loop {RawFrame Frame : Type}
    (normalize : RawFrame -> Frame) (settings : SystemSettings)
    (connected : bool) (reads : list (option RawFrame * Q)) (last_time : Q)
    (p : RTSPProcessor Frame) : RTSPProcessor Frame :=
  if negb connected then p
  else set_is_running false
         (capture_frames normalize settings reads last_time p).

(** The steps of the two threads of one stream, interleaved: a frame
    processed by the capture thread, or an iteration of the detection
    loop at a given time. The run returns the processor and the windows
    sent to inference, in order. *)
Inductive StreamOp (RawFrame : Type) : Type :=
| Capture (frame : RawFrame)
| Detect (now : Q).

Arguments Capture {RawFrame} _.
Arguments Detect {RawFrame} _.

Fixpoint run_stream_ops {RawFrame Frame : Type} (normalize : RawFrame -> Frame)
    (encode_thumbnail : Frame -> string) (triton : list Frame -> option float32)
    (settings : SystemSettings) (ops : list (StreamOp RawFrame))
    (p : RTSPProcessor Frame) : RTSPProcessor Frame * list (list Frame) :=
  match ops with
  | [] => (p, [])
  | Capture frame :: ops' =>
      run_stream_ops normalize encode_thumbnail triton settings ops'
        (process_frame normalize settings frame p)
  | Detect now :: ops' =>
      let '(p', calls) :=
        detection_iteration encode_thumbnail triton settings now p in
      let '(p'', calls') :=
        run_stream_ops normalize encode_thumbnail triton settings ops' p' in
      (p'', calls ++ calls')
  end.

(** [get_latest_results] called [n] times in a row. *)
Fixpoint drain_repeatedly {Frame : Type} (n : nat) (p : RTSPProcessor Frame)
  : list DetectionResult * RTSPProcessor Frame :=
  match n with
  | O => ([], p)
  | S n' =>
      let '(results, p') := get_latest_results default_max_results p in
      let '(more, p'') := drain_repeatedly n' p' in
      (results ++ more, p'')
  end.

(** [del self.streams[stream_id]] *)
Fixpoint streams_del {Frame : Type} (id : string) (streams : Streams Frame)
  : Streams Frame :=
  match streams with
  | [] => []
  | (k, q) :: rest =>
      if String.eqb k id then rest else (k, q) :: streams_del id rest
  end.

(** [remove_stream]: the processor is stopped, then deleted. *)
Definition remove_stream {Frame : Type} (id : string) (streams : Streams Frame)
  : bool * Streams Frame :=
  match streams_get id streams with
  | Some p => (true, streams_del id (streams_set id (stop p) streams))
  | None => (false, streams)
  end.

Definition start_detection {Frame : Type} (now : Q) (id : string)
    (streams : Streams Frame) : bool * Streams Frame :=
  match streams_get id streams with
  | Some p => (true, streams_set id (start now p) streams)
  | None => (false, streams)
  end.

Definition stop_detection {Frame : Type} (id : string)
    (streams : Streams Frame) : bool * Streams Frame :=
  match streams_get id streams with
  | Some p => (true, streams_set id (stop p) streams)
  | None => (false, streams)
  end.

Definition get_active_streams {Frame : Type} (streams : Streams Frame)
  : list string :=
  map fst (List.filter (fun e => is_running (snd e)) streams).

(** The pattern shared by the handlers of DELETE /api/streams/{id} and of
    POST /api/streams/{id}/start and /stop: the 404 raised in the [try]
    block is caught by the handler's [except Exception as e] and raised
    again with status 400 and [str(e)] as detail. *)
Definition answer_or_not_found (str : PyExn -> string) (success : bool)
    (message : string) : PyExn + string :=
  let attempt : PyExn + string :=
    if success then inr message
    else inl (HTTPException 404 "Stream not found") in
  match attempt with
  | inr m => inr m
  | inl e => inl (HTTPException 400 (str e))
  end.

Definition delete_api_streams {Frame : Type} (str : PyExn -> string)
    (id : string) (streams : Streams Frame)
  : (PyExn + string) * Streams Frame :=
  let '(success, streams') := remove_stream id streams in
  (answer_or_not_found str success
     ("Stream " ++ id ++ " removed successfully")%string, streams').

Definition post_api_streams_start {Frame : Type} (str : PyExn -> string)
    (now : Q) (id : string) (streams : Streams Frame)
  : (PyExn + string) * Streams Frame :=
  let '(success, streams') := start_detection now id streams in
  (answer_or_not_found str success
     ("Detection started for " ++ id)%string, streams').

Definition post_api_streams_stop {Frame : Type} (str : PyExn -> string)
    (id : string) (streams : Streams Frame)
  : (PyExn + string) * Streams Frame :=
  let '(success, streams') := stop_detection id streams in
  (answer_or_not_found str success
     ("Detection stopped for " ++ id)%string, streams').

(** The handler of GET /api/detections:
    [rtsp_manager.get_latest_detections()[:limit]]. *)
Definition get_detections {Frame : Type} (limit : Z) (streams : Streams Frame)
  : list DetectionResult * Streams Frame :=
  let '(detections, streams') := get_latest_detections streams in
  (py_slice_to limit detections, streams').

(** The restart of the active streams in the handler of
    POST /api/settings, once the settings are saved. *)
Definition restart_active_streams {Frame : Type} (now : Q)
    (streams : Streams Frame) : Streams Frame :=
  fold_left
    (fun streams id =>
       snd (start_detection now id (snd (stop_detection id streams))))
    (get_active_streams streams) streams.

(** [send_final_notification]: what is handed to [send_message] when the
    task runs, nothing when the service is disabled by then. *)
Record FinalMessage : Type := {
  final_stream : string;
  final_duration : Z;
  final_max_confidence : Q;
  final_total_notifications : Z
}.

Definition run_task (s : TelegramService) (t : Task) : option FinalMessage :=
  match t with
  | send_final_notification stream_id duration event_info =>
      if negb (enabled s) then None
      else
        Some {| final_stream := stream_id;
                final_duration := duration;
                final_max_confidence := max_confidence event_info;
                final_total_notifications :=
                  (notification_count event_info + 1)%Z |}
  end.

(** ** Further notions used in the statements *)

(** The registry is well formed: one entry per id, and every processor
    carries the id it is filed under. *)
Definition registry_ok {Frame : Type} (streams : Streams Frame) : Prop :=
  List.NoDup (map fst streams)
  /\ Forall (fun e => p_stream_id (snd e) = fst e) streams.

(** The frames that pass the frame-skip test when the counter stands at
    [k] before the first of them. *)
Fixpoint decimate {A : Type} (skip k : Z) (frames : list A) : list A :=
  match frames with
  | [] => []
  | f :: frames' =>
      if (k mod skip =? 0)%Z then f :: decimate skip (k + 1) frames'
      else decimate skip (k + 1) frames'
  end.

(** The results with a given timestamp, in order. *)
Definition at_time (t : Q) (l : list DetectionResult) : list DetectionResult :=
  List.filter (fun r => Qeq_bool (timestamp r) t) l.

(** The service at the end of a run. *)
Definition final_service (s : TelegramService) (trace : list Step)
  : TelegramService :=
  List.last (map step_after trace) s.

(** The largest confidence among a list, from a starting value, as the
    episode accumulates it. *)
Definition running_max (start : Q) (confidences : list Q) : Q :=
  fold_left py_max confidences start.

(** The confidences of the calls that concern a stream, in order. *)
Definition confidences_for (stream_id : string) (calls : list Call) : list Q :=
  map (fun c => confidence (call_detection c))
    (List.filter (fun c => String.eqb (call_stream c) stream_id) calls).

(** The number of violent results in a list. *)
Definition violent_count (l : list DetectionResult) : Z :=
  Z.of_nat (length (List.filter is_violence l)).

(** * Properties *)

(** ** Comparisons on floats *)

Lemma Qltb_lt (x y : Q) : Qltb x y = true <-> (x < y)%Q.
Proof.
  unfold Qltb. rewrite Qlt_alt.
  destruct (x ?= y)%Q; split; intros H; congruence.
Qed.

Lemma Qltb_ge (x y : Q) : Qltb x y = false <-> (y <= x)%Q.
Proof.
  pose proof (Qltb_lt x y) as H. split.
  - intros E. apply Qnot_lt_le. intros L. apply H in L. congruence.
  - intros L. destruct (Qltb x y); [ | reflexivity ].
    exfalso. apply (Qle_not_lt _ _ L). now apply H.
Qed.

Lemma Qgtb_gt (x y : Q) : Qgtb x y = true <-> (y < x)%Q.
Proof. apply Qltb_lt. Qed.

Lemma Qgeb_ge (x y : Q) : Qgeb x y = true <-> (y <= x)%Q.
Proof. apply Qle_bool_iff. Qed.

Lemma py_min_Qmin (a b : Q) : (py_min a b == Qmin a b)%Q.
Proof.
  unfold py_min. destruct (Qltb b a) eqn:E.
  - apply Qltb_lt in E. symmetry. apply Q.min_r. now apply Qlt_le_weak.
  - apply Qltb_ge in E. symmetry. now apply Q.min_l.
Qed.

(** ** Single precision *)

Lemma pow2_pos (e : Z) : (0 < pow2 e)%Q.
Proof. apply Qpower_0_lt. reflexivity. Qed.

Lemma pow2_plus (a b : Z) : (pow2 (a + b) == pow2 a * pow2 b)%Q.
Proof. apply Qpower_plus. discriminate. Qed.

Lemma pow2_le (a b : Z) : (a <= b)%Z -> (pow2 a <= pow2 b)%Q.
Proof. intros H. apply Qpower_le_compat_l; [ exact H | discriminate ]. Qed.

Lemma pow2_Z (n : Z) : (0 <= n)%Z -> (pow2 n == inject_Z (2 ^ n))%Q.
Proof. intros H. unfold pow2. now rewrite Zpower_Qpower. Qed.

(** [ilog2 t] is the exponent of the binade of a positive [t]. *)
Lemma ilog2_spec (t : Q) :
  (0 < t)%Q -> (pow2 (ilog2 t) <= t)%Q /\ (t < pow2 (ilog2 t + 1))%Q.
Proof.
  intros Ht. unfold ilog2.
  destruct t as [a b]. cbn [Qnum Qden].
  assert (0 < a)%Z as Ha by (unfold Qlt in Ht; simpl in Ht; lia).
  set (la := Z.log2 a). set (lb := Z.log2 (Zpos b)).
  destruct (Z.log2_spec a Ha) as [La Ua]. fold la in La, Ua.
  destruct (Z.log2_spec (Zpos b) (Pos2Z.is_pos b)) as [Lb Ub]. fold lb in Lb, Ub.
  assert (0 <= la)%Z as Hla by apply Z.log2_nonneg.
  assert (0 <= lb)%Z as Hlb by apply Z.log2_nonneg.
  assert (a # b == inject_Z a / inject_Z (Zpos b))%Q as E by apply Qmake_Qdiv.
  assert (0 < inject_Z (Zpos b))%Q as Hb by (unfold Qlt; simpl; lia).
  assert (inject_Z (2 ^ la) <= inject_Z a)%Q as La' by (rewrite <- Zle_Qle; exact La).
  assert (inject_Z a < inject_Z (2 ^ Z.succ la))%Q as Ua' by (rewrite <- Zlt_Qlt; exact Ua).
  assert (inject_Z (2 ^ lb) <= inject_Z (Zpos b))%Q as Lb' by (rewrite <- Zle_Qle; exact Lb).
  assert (inject_Z (Zpos b) < inject_Z (2 ^ Z.succ lb))%Q as Ub' by (rewrite <- Zlt_Qlt; exact Ub).
  rewrite <- !pow2_Z in La', Ua', Lb', Ub' by lia.
  assert (a # b == inject_Z a * / inject_Z (Zpos b))%Q as E' by exact E.
  assert (inject_Z (Zpos b) * (a # b) == inject_Z a)%Q as Emul.
  { rewrite E. field. intros Hz. rewrite Hz in Hb. revert Hb. apply Qlt_irrefl. }
  pose proof (pow2_pos (la - lb)) as P0.
  pose proof (pow2_pos (la - lb - 1)) as P1.
  pose proof (pow2_pos lb) as P2.
  pose proof (pow2_pos (Z.succ lb)) as P3.
  assert (pow2 la == pow2 (la - lb) * pow2 lb)%Q as D0
    by (rewrite <- pow2_plus; f_equiv; lia).
  assert (pow2 la == pow2 (la - lb - 1) * pow2 (Z.succ lb))%Q as D1
    by (rewrite <- pow2_plus; f_equiv; lia).
  assert (pow2 (Z.succ la) == pow2 (la - lb + 1) * pow2 lb)%Q as D2
    by (rewrite <- pow2_plus; f_equiv; lia).
  pose proof (pow2_pos (la - lb + 1)) as P4.
  destruct (Qle_bool (pow2 (la - lb)) (a # b)) eqn:C.
  - apply Qle_bool_iff in C. split; [ exact C | ].
    apply Qnot_le_lt. intros N. nra.
  - assert (a # b < pow2 (la - lb))%Q as C'.
    { apply Qnot_le_lt. intros N. apply Qle_bool_iff in N. congruence. }
    replace (la - lb - 1 + 1)%Z with (la - lb)%Z by lia.
    split; [ | exact C' ].
    apply Qnot_lt_le. intros N. nra.
Qed.

Lemma round_half_even_bounds (s : Q) :
  (Qfloor s <= round_half_even s <= Qfloor s + 1)%Z.
Proof.
  unfold round_half_even.
  destruct (_ ?= _)%Q; [ destruct (Z.even _) | | ]; lia.
Qed.

Lemma round_half_even_ge_Z (s : Q) (M : Z) :
  (inject_Z M <= s)%Q -> (M <= round_half_even s)%Z.
Proof.
  intros H. apply Qfloor_resp_le in H. rewrite Qfloor_Z in H.
  pose proof (round_half_even_bounds s). lia.
Qed.

Lemma round_half_even_le_Z (s : Q) (M : Z) :
  (s <= inject_Z M)%Q -> (round_half_even s <= M)%Z.
Proof.
  intros H. pose proof (Qfloor_resp_le _ _ H) as F. rewrite Qfloor_Z in F.
  pose proof (round_half_even_bounds s) as B.
  destruct (Z.eq_dec (Qfloor s) M) as [E | N]; [ | lia ].
  unfold round_half_even.
  destruct (_ ?= _)%Q eqn:C.
  - apply Qeq_alt in C. rewrite E in C. lra.
  - lia.
  - apply Qgt_alt in C. rewrite E in C. lra.
Qed.

Lemma pow2_scale (m e e' : Z) :
  (e' <= e)%Z ->
  (inject_Z m * pow2 e == inject_Z (m * 2 ^ (e - e')) * pow2 e')%Q.
Proof.
  intros H. rewrite inject_Z_mult, <- pow2_Z by lia.
  rewrite <- Qmult_assoc, <- pow2_plus.
  replace (e - e' + e')%Z with e by lia. reflexivity.
Qed.

Lemma Qdiv_pow2_ge (x t : Q) (e : Z) :
  (x * pow2 e <= t)%Q -> (x <= t / pow2 e)%Q.
Proof.
  intros H. pose proof (pow2_pos e) as P.
  apply Qle_shift_div_l; assumption.
Qed.

Lemma Qdiv_pow2_le (x t : Q) (e : Z) :
  (t <= x * pow2 e)%Q -> (t / pow2 e <= x)%Q.
Proof.
  intros H. pose proof (pow2_pos e) as P.
  apply Qle_shift_div_r; assumption.
Qed.

(** Rounding is monotone around the single-precision numbers: one that
    is at most [t] is at most the rounding of [t], and one that is at
    least [t] is at least the rounding of [t]. *)
Lemma round32_pos_above (m e : Z) (t : Q) :
  (0 <= m < 2 ^ 24)%Z -> (-149 <= e)%Z -> (0 < t)%Q ->
  (inject_Z m * pow2 e <= t)%Q ->
  (inject_Z m * pow2 e
   <= inject_Z (round_half_even (t / pow2 (exponent32 t))) * pow2 (exponent32 t))%Q.
Proof.
  intros Hm He Ht Hle.
  set (et := exponent32 t).
  pose proof (pow2_pos et) as Pet.
  destruct (Z_le_gt_dec et e) as [Hc | Hc].
  - rewrite (pow2_scale m e et Hc) in *.
    apply Qdiv_pow2_ge, round_half_even_ge_Z in Hle.
    apply Qmult_le_compat_r; [ | apply Qlt_le_weak; exact Pet ].
    rewrite <- Zle_Qle. exact Hle.
  - assert (et = ilog2 t - 23)%Z as Eet by (unfold et, exponent32 in *; lia).
    destruct (ilog2_spec t Ht) as [L _].
    replace (ilog2 t) with (23 + et)%Z in L by lia.
    rewrite pow2_plus in L.
    apply Qdiv_pow2_ge in L. rewrite pow2_Z in L by lia.
    apply round_half_even_ge_Z in L.
    apply Qle_trans with (inject_Z (2 ^ 23) * pow2 et)%Q.
    + rewrite <- pow2_Z, <- pow2_plus by lia.
      apply Qle_trans with (inject_Z (2 ^ 24) * pow2 e)%Q.
      * apply Qmult_le_compat_r; [ | apply Qlt_le_weak, pow2_pos ].
        rewrite <- Zle_Qle. lia.
      * rewrite <- pow2_Z, <- pow2_plus by lia. apply pow2_le. lia.
    + apply Qmult_le_compat_r; [ | apply Qlt_le_weak; exact Pet ].
      rewrite <- Zle_Qle. exact L.
Qed.

Lemma round32_pos_below (m e : Z) (t : Q) :
  (0 <= m < 2 ^ 24)%Z -> (-149 <= e)%Z -> (0 < t)%Q ->
  (t <= inject_Z m * pow2 e)%Q ->
  (inject_Z (round_half_even (t / pow2 (exponent32 t))) * pow2 (exponent32 t)
   <= inject_Z m * pow2 e)%Q.
Proof.
  intros Hm He Ht Hle.
  set (et := exponent32 t).
  pose proof (pow2_pos et) as Pet.
  destruct (Z_le_gt_dec et e) as [Hc | Hc].
  - rewrite (pow2_scale m e et Hc) in *.
    apply Qdiv_pow2_le, round_half_even_le_Z in Hle.
    apply Qmult_le_compat_r; [ | apply Qlt_le_weak; exact Pet ].
    rewrite <- Zle_Qle. exact Hle.
  - exfalso.
    assert (et = ilog2 t - 23)%Z as Eet by (unfold et, exponent32 in *; lia).
    destruct (ilog2_spec t Ht) as [L _].
    assert (inject_Z m * pow2 e < pow2 (ilog2 t))%Q as U.
    { apply Qlt_le_trans with (inject_Z (2 ^ 24) * pow2 e)%Q.
      - apply Qmult_lt_compat_r; [ apply pow2_pos | ].
        rewrite <- Zlt_Qlt. lia.
      - rewrite <- pow2_Z, <- pow2_plus by lia. apply pow2_le. lia. }
    lra.
Qed.

Lemma f32_bounds (p : float32) :
  (0 <= f32_significand p < 2 ^ 24)%Z /\ (-149 <= f32_exponent p <= 104)%Z.
Proof.
  pose proof (f32_representable p) as H. unfold representable32 in H.
  rewrite !andb_true_iff in H. lia.
Qed.

Lemma f32_magnitude (m e : Z) :
  (0 <= m < 2 ^ 24)%Z -> (e <= 104)%Z ->
  (0 <= inject_Z m * pow2 e)%Q /\ (inject_Z m * pow2 e < pow2 128)%Q.
Proof.
  intros Hm He. pose proof (pow2_pos e) as P. split.
  - apply Qmult_le_0_compat; [ | apply Qlt_le_weak; exact P ].
    change 0%Q with (inject_Z 0). rewrite <- Zle_Qle. lia.
  - apply Qlt_le_trans with (inject_Z (2 ^ 24) * pow2 e)%Q.
    + apply Qmult_lt_compat_r; [ exact P | ]. rewrite <- Zlt_Qlt. lia.
    + rewrite <- pow2_Z, <- pow2_plus by lia. apply pow2_le. lia.
Qed.

Lemma Qcompare_0_cases (t : Q) :
  match (t ?= 0)%Q with
  | Eq => (t == 0)%Q
  | Lt => (t < 0)%Q
  | Gt => (0 < t)%Q
  end.
Proof.
  destruct (t ?= 0)%Q eqn:C.
  - now apply Qeq_alt.
  - now apply Qlt_alt.
  - now apply Qgt_alt.
Qed.

(** A single-precision number above the rounded [t] is above [t]. *)
Lemma gt32_round32_sound (p : float32) (t : Q) :
  gt32 (f32_value p) (round32 t) = true -> (t < f32_value p)%Q.
Proof.
  intros G. apply Qnot_le_lt. intros Hle.
  destruct (f32_bounds p) as [Hm [He1 He2]].
  destruct (f32_magnitude _ _ Hm He2) as [V0 V1].
  pose proof (Qcompare_0_cases t) as C.
  unfold round32 in G. unfold f32_value in *. cbv zeta in *.
  set (v := (inject_Z (f32_significand p) * pow2 (f32_exponent p))%Q) in *.
  destruct (t ?= 0)%Q.
  - cbn [gt32] in G. apply Qgtb_gt in G.
    destruct (f32_negative p); lra.
  - assert (0 < - t)%Q as Ht by lra.
    destruct (f32_negative p); [ | lra ].
    assert (- t <= v)%Q as Hv by lra.
    pose proof (round32_pos_below _ _ _ Hm He1 Ht Hv) as B.
    unfold round32_pos in G. cbv zeta in G.
    destruct (Qle_bool _ _) eqn:O.
    + apply Qle_bool_iff in O. fold v in B. lra.
    + cbn [gt32] in G. apply Qgtb_gt in G. fold v in B. lra.
  - unfold round32_pos in G. cbv zeta in G.
    destruct (Qle_bool _ _); [ discriminate G | ].
    cbn [gt32] in G. apply Qgtb_gt in G.
    destruct (f32_negative p).
    + assert (0 <= 0 < 2 ^ 24)%Z as Hz0 by lia.
      assert (inject_Z 0 * pow2 (-149) == 0)%Q as Ez by ring.
      assert (inject_Z 0 * pow2 (-149) <= t)%Q as Hz1
        by (rewrite Ez; apply Qlt_le_weak; exact C).
      pose proof (round32_pos_above 0 (-149) t Hz0 ltac:(lia) C Hz1) as A.
      rewrite Ez in A. lra.
    + pose proof (round32_pos_above _ _ _ Hm He1 C Hle) as A.
      fold v in A. lra.
Qed.

(** Converting a single-precision number changes nothing. *)
Lemma round32_representable (p : float32) :
  match round32 (f32_value p) with
  | finite32 r => (r == f32_value p)%Q
  | infinite32 _ => False
  end.
Proof.
  destruct (f32_bounds p) as [Hm [He1 He2]].
  destruct (f32_magnitude _ _ Hm He2) as [V0 V1].
  pose proof (Qcompare_0_cases (f32_value p)) as C.
  unfold round32. unfold f32_value in *. cbv zeta in *.
  set (v := (inject_Z (f32_significand p) * pow2 (f32_exponent p))%Q) in *.
  destruct (f32_negative p).
  - destruct (- v ?= 0)%Q.
    + symmetry. exact C.
    + assert (0 < - - v)%Q as Ht by lra.
      assert (- - v <= v)%Q as L1 by lra.
      assert (v <= - - v)%Q as L2 by lra.
      pose proof (round32_pos_below _ _ _ Hm He1 Ht L1) as B.
      pose proof (round32_pos_above _ _ _ Hm He1 Ht L2) as A.
      fold v in A, B.
      unfold round32_pos. cbv zeta.
      destruct (Qle_bool _ _) eqn:O.
      * apply Qle_bool_iff in O. lra.
      * lra.
    + lra.
  - destruct (v ?= 0)%Q.
    + symmetry. exact C.
    + lra.
    + pose proof (round32_pos_below _ _ _ Hm He1 C (Qle_refl _)) as B.
      pose proof (round32_pos_above _ _ _ Hm He1 C (Qle_refl _)) as A.
      fold v in A, B.
      unfold round32_pos. cbv zeta.
      destruct (Qle_bool _ _) eqn:O.
      * apply Qle_bool_iff in O. lra.
      * lra.
Qed.

(** The conversion depends on the value of the rational only, not on
    the fraction that denotes it. *)
Lemma pow2_lt (a b : Z) : (pow2 a < pow2 b)%Q -> (a < b)%Z.
Proof.
  intros H. destruct (Z_lt_le_dec a b) as [L | L]; [ exact L | ].
  apply pow2_le in L. lra.
Qed.

Lemma ilog2_comp (x y : Q) : (0 < x)%Q -> (x == y)%Q -> ilog2 x = ilog2 y.
Proof.
  intros Hx E.
  assert (0 < y)%Q as Hy by (rewrite <- E; exact Hx).
  destruct (ilog2_spec x Hx) as [Lx Ux].
  destruct (ilog2_spec y Hy) as [Ly Uy].
  assert (ilog2 x < ilog2 y + 1)%Z by (apply pow2_lt; lra).
  assert (ilog2 y < ilog2 x + 1)%Z by (apply pow2_lt; lra).
  lia.
Qed.

Lemma round_half_even_comp (s s' : Q) :
  (s == s')%Q -> round_half_even s = round_half_even s'.
Proof.
  intros E. unfold round_half_even. cbv zeta.
  rewrite (Qfloor_comp _ _ E).
  assert (s - inject_Z (Qfloor s') == s' - inject_Z (Qfloor s'))%Q as E'
    by (rewrite E; reflexivity).
  rewrite (Qcompare_comp _ _ E' (1 # 2)%Q (1 # 2)%Q (Qeq_refl _)).
  reflexivity.
Qed.

Lemma round32_pos_comp (x y : Q) :
  (0 < x)%Q -> (x == y)%Q -> round32_pos x = round32_pos y.
Proof.
  intros Hx E. unfold round32_pos, exponent32. cbv zeta.
  rewrite (ilog2_comp x y Hx E).
  set (e := Z.max (ilog2 y - 23) (-149)).
  assert (x / pow2 e == y / pow2 e)%Q as E' by (rewrite E; reflexivity).
  rewrite (round_half_even_comp _ _ E'). reflexivity.
Qed.

Lemma round32_comp (x y : Q) : (x == y)%Q -> round32 x = round32 y.
Proof.
  intros E. unfold round32.
  pose proof (Qcompare_0_cases x) as C.
  rewrite <- (Qcompare_comp _ _ E 0%Q 0%Q (Qeq_refl _)).
  destruct (x ?= 0)%Q.
  - reflexivity.
  - rewrite (round32_pos_comp (- x) (- y)); [ reflexivity | lra | ].
    rewrite E. reflexivity.
  - rewrite (round32_pos_comp x y C E). reflexivity.
Qed.

(** The flag of [predict] is the single-precision comparison, and a
    positive flag puts the probability above the threshold itself. *)
Lemma predict_flag_sound settings (outcome : option float32) :
  fst (predict settings outcome) = true ->
  (confidence_threshold settings < snd (predict settings outcome))%Q.
Proof.
  destruct outcome as [p | ]; simpl; [ | discriminate ].
  apply gt32_round32_sound.
Qed.

(** ** TritonClient.predict *)

(** C5. The event flag returned by [predict] for a probability [p] is the
    comparison of [p] with the threshold converted to single precision:
    it is true exactly when [p] is strictly greater than the rounded
    threshold (never, when the conversion overflows to plus infinity;
    always, to minus infinity). A true flag implies that [p] is strictly
    greater than the threshold itself, and for a threshold that is a
    single-precision number the flag is true exactly when [p] is strictly
    greater than it. The probability is returned as it is. With the
    threshold 0.7, the single-precision numbers nearest to 0.8, 0.65 and
    0.7 give true, false and false. *)
Theorem predict_flags_above_rounded_threshold :
  (forall (settings : SystemSettings) (p : float32),
      let t := confidence_threshold settings in
      (fst (predict settings (Some p)) = true
       <-> match round32 t with
           | finite32 t32 => (t32 < f32_value p)%Q
           | infinite32 negative => negative = true
           end)
      /\ (fst (predict settings (Some p)) = true -> (t < f32_value p)%Q)
      /\ (forall t32 : float32,
            (f32_value t32 == t)%Q ->
            (fst (predict settings (Some p)) = true <-> (t < f32_value p)%Q))
      /\ snd (predict settings (Some p)) = f32_value p)
  /\ confidence_threshold default_settings = 0.7%Q
  /\ is_float32_of 0.8 float32_0_8 = true
  /\ is_float32_of 0.65 float32_0_65 = true
  /\ is_float32_of 0.7 float32_0_7 = true
  /\ fst (predict default_settings (Some float32_0_8)) = true
  /\ fst (predict default_settings (Some float32_0_65)) = false
  /\ fst (predict default_settings (Some float32_0_7)) = false.
Proof.
  split; [ | repeat split; vm_compute; reflexivity ].
  intros settings p t.
  assert (fst (predict settings (Some p)) = true
          <-> match round32 t with
              | finite32 t32 => (t32 < f32_value p)%Q
              | infinite32 negative => negative = true
              end) as Hflag.
  { cbn [predict fst]. unfold float32_gt. fold t.
    destruct (round32 t) as [t32 | negative]; cbn [gt32];
      [ apply Qgtb_gt | reflexivity ]. }
  split; [ exact Hflag | ].
  split; [ apply (predict_flag_sound settings (Some p)) | ].
  split; [ | reflexivity ].
  intros t32 Ht32. rewrite Hflag.
  rewrite <- (round32_comp _ _ Ht32).
  pose proof (round32_representable t32) as Hrep.
  destruct (round32 (f32_value t32)) as [r | ?]; [ | contradiction ].
  rewrite Hrep, Ht32. reflexivity.
Qed.

Lemma predict_flags_above_rounded_threshold_witness :
  (0.7 < f32_value float32_0_8)%Q.
Proof.
  destruct predict_flags_above_rounded_threshold as [H _].
  pose proof (H default_settings float32_0_8) as (_ & Habove & _).
  apply Habove. vm_compute. reflexivity.
Defined.

(** C5, counterexample to "true if and only if p > t": the threshold
    [0.5 - 2^-30] is rounded to 0.5 in single precision, so the
    probability 0.5, which is strictly greater than the threshold, is
    not flagged. *)
Lemma predict_misses_probability_above_threshold :
  let settings := {| frame_skip := 3;
                     confidence_threshold := 0.5 - (1 # 2 ^ 30);
                     buffer_size := 16 |} in
  (confidence_threshold settings < f32_value float32_0_5)%Q
  /\ is_float32_of (confidence_threshold settings) float32_0_5 = true
  /\ predict settings (Some float32_0_5) = (false, f32_value float32_0_5).
Proof.
  vm_compute. repeat split.
Qed.

(** ** The capture loop *)

(** C10. The fps update divides only when [current_time - last_time] is
    positive, so it never raises a division by zero: the fps becomes
    1 / (current_time - last_time) when that difference is positive and
    is kept otherwise; when the two timestamps are equal the stored fps
    is kept as it is, also through a whole iteration of the capture
    loop. *)
Theorem update_fps_never_divides_by_zero :
  forall current_time last_time fps0 : Q,
    (exists f, update_fps current_time last_time fps0 = inr f
               /\ ((0 < current_time - last_time)%Q ->
                   f = (1 / (current_time - last_time))%Q)
               /\ (~ (0 < current_time - last_time)%Q -> f = fps0))
    /\ ((current_time == last_time)%Q ->
        update_fps current_time last_time fps0 = inr fps0
        /\ forall (RawFrame Frame : Type) (normalize : RawFrame -> Frame)
                  (settings : SystemSettings) (frame : RawFrame)
                  (p : RTSPProcessor Frame),
            fps p = fps0 ->
            frame_skip settings <> 0%Z ->
            exists p',
              capture_iteration normalize settings frame current_time
                last_time p = inr (p', current_time)
              /\ fps p' = fps0).
Proof.
  intros current_time last_time fps0. unfold update_fps, py_truediv.
  destruct (Qgtb (current_time - last_time) 0) eqn:E.
  - pose proof E as Hpos. apply Qgtb_gt in Hpos.
    destruct (Qeq_bool (current_time - last_time) 0) eqn:Z0.
    + apply Qeq_bool_iff in Z0. rewrite Z0 in Hpos.
      exfalso. revert Hpos. apply Qlt_irrefl.
    + split.
      * eexists. split; [ reflexivity | ]. split; [ reflexivity | tauto ].
      * intros Heq. exfalso. rewrite Heq in Hpos.
        unfold Qminus in Hpos. rewrite Qplus_opp_r in Hpos.
        revert Hpos. apply Qlt_irrefl.
  - split.
    + eexists. split; [ reflexivity | ]. split; [ | reflexivity ].
      intros Hpos. apply Qgtb_gt in Hpos. congruence.
    + intros _. split; [ reflexivity | ].
      intros RawFrame Frame normalize settings frame p Hfps Hskip.
      unfold capture_iteration, update_fps, py_mod. rewrite E.
      destruct (Z.eqb_spec (frame_skip settings) 0); [ contradiction | ].
      eexists. split; [ reflexivity | ].
      destruct (total_frames p mod frame_skip settings =? 0)%Z; exact Hfps.
Qed.

Lemma update_fps_never_divides_by_zero_witness :
  update_fps 5 5 (30 # 1) = inr (30 # 1)%Q.
Proof.
  apply (update_fps_never_divides_by_zero 5 5 (30 # 1)).
  reflexivity.
Defined.

(** ** The frame buffer *)

Section FrameBuffer.

Context {RawFrame Frame : Type}.
Variable normalize : RawFrame -> Frame.

Lemma most_recent_length (c : nat) (l : list Frame) :
  length (most_recent c l) = Nat.min c (length l).
Proof. unfold most_recent. rewrite length_skipn. lia. Qed.

Lemma most_recent_all (c : nat) (l : list Frame) :
  (length l <= c)%nat -> most_recent c l = l.
Proof.
  intros H. unfold most_recent.
  replace (length l - c)%nat with 0%nat by lia. reflexivity.
Qed.

(** With a positive setting a push keeps the newest frames. *)
Lemma push_frame_most_recent (cap : Z) (f : Frame) (buffer : list Frame) :
  (1 <= cap)%Z ->
  push_frame cap f buffer = most_recent (Z.to_nat cap) (buffer ++ [f]).
Proof.
  intros Hcap. unfold push_frame, py_slice_from, most_recent.
  destruct (Z.of_nat (length (buffer ++ [f])) >? cap)%Z eqn:E.
  - apply Z.gtb_lt in E.
    destruct (- cap <? 0)%Z eqn:N; [ | apply Z.ltb_ge in N; lia ].
    f_equal. lia.
  - assert (Z.of_nat (length (buffer ++ [f])) <= cap)%Z as L.
    { destruct (Z.gtb_spec (Z.of_nat (length (buffer ++ [f]))) cap);
        [ discriminate | lia ]. }
    replace (length (buffer ++ [f]) - Z.to_nat cap)%nat with 0%nat by lia.
    reflexivity.
Qed.

Lemma most_recent_snoc (c : nat) (l : list Frame) (x : Frame) :
  (1 <= c)%nat ->
  most_recent c (most_recent c l ++ [x]) = most_recent c (l ++ [x]).
Proof.
  intros Hc. unfold most_recent at 1 3.
  rewrite !length_app, most_recent_length. simpl.
  unfold most_recent.
  destruct (Nat.le_gt_cases c (length l)) as [Hle | Hgt].
  - replace (Nat.min c (length l) + 1 - c)%nat with 1%nat by lia.
    replace (length l + 1 - c)%nat with (1 + (length l - c))%nat by lia.
    rewrite !skipn_app, length_skipn, skipn_skipn.
    replace (1 - (length l - (length l - c)))%nat with 0%nat by lia.
    replace (1 + (length l - c) - length l)%nat with 0%nat by lia.
    reflexivity.
  - replace (Nat.min c (length l) + 1 - c)%nat with 0%nat by lia.
    replace (length l + 1 - c)%nat with 0%nat by lia.
    replace (length l - c)%nat with 0%nat by lia.
    reflexivity.
Qed.

Lemma process_frame_buffer (settings : SystemSettings) (f : RawFrame)
    (p : RTSPProcessor Frame) :
  frame_buffer (process_frame normalize settings f p)
  = push_frame (buffer_size settings) (normalize f) (frame_buffer p).
Proof. reflexivity. Qed.

(** The buffer after a run of pushes, for a positive setting: the newest
    frames of everything that was ever pushed. *)
Lemma process_frames_history (settings : SystemSettings)
    (frames : list RawFrame) :
  (1 <= buffer_size settings)%Z ->
  forall (p : RTSPProcessor Frame) (history : list Frame),
    frame_buffer p = most_recent (Z.to_nat (buffer_size settings)) history ->
    frame_buffer (process_frames normalize settings frames p)
    = most_recent (Z.to_nat (buffer_size settings))
        (history ++ map normalize frames).
Proof.
  intros Hcap. unfold process_frames.
  induction frames as [ | f frames IH ]; intros p history Hp; simpl.
  - now rewrite app_nil_r.
  - rewrite (IH _ (history ++ [normalize f])).
    + now rewrite <- app_assoc.
    + rewrite process_frame_buffer, push_frame_most_recent by assumption.
      rewrite Hp. apply most_recent_snoc. lia.
Qed.

(** Once at least [c] frames were appended, the [c] newest frames are
    among the appended ones. *)
Lemma most_recent_app_r (c : nat) (old new : list Frame) :
  (c <= length new)%nat ->
  most_recent c (old ++ new) = most_recent c new.
Proof.
  intros H. unfold most_recent.
  rewrite skipn_app, length_app.
  rewrite (skipn_all2 old) by lia. simpl. f_equal. lia.
Qed.

(** The frame buffer for a positive capacity: after any pushes the
    length is at most the capacity, and after at least [capacity]
    pushes the buffer is the [capacity] newest frames in arrival
    order. *)
Lemma frame_buffer_bounded_positive_capacity (settings : SystemSettings)
    (frames : list RawFrame) (p : RTSPProcessor Frame) :
  (1 <= buffer_size settings)%Z ->
  (Z.of_nat (length (frame_buffer p)) <= buffer_size settings)%Z ->
  let p' := process_frames normalize settings frames p in
  (Z.of_nat (length (frame_buffer p')) <= buffer_size settings)%Z
  /\ ((buffer_size settings <= Z.of_nat (length frames))%Z ->
      frame_buffer p'
      = map normalize (most_recent (Z.to_nat (buffer_size settings)) frames)).
Proof.
  intros Hcap Hlen p'. subst p'.
  rewrite (process_frames_history settings frames Hcap p (frame_buffer p))
    by (symmetry; apply most_recent_all; lia).
  split.
  - rewrite most_recent_length. lia.
  - intros Hmany. rewrite most_recent_app_r by (rewrite length_map; lia).
    unfold most_recent. rewrite length_map. apply skipn_map.
Qed.

(** With the capacity 0 the slice [frame_buffer[-0:]] is the whole list:
    nothing is ever dropped. *)
Lemma push_frame_capacity_zero (f : Frame) (buffer : list Frame) :
  push_frame 0 f buffer = buffer ++ [f].
Proof.
  unfold push_frame, py_slice_from.
  destruct (Z.of_nat (length (buffer ++ [f])) >? 0)%Z; [ | reflexivity ].
  change (- 0 <? 0)%Z with false. cbv iota. change (- 0)%Z with 0%Z.
  rewrite Z.min_l by lia. reflexivity.
Qed.

End FrameBuffer.

(** C4. With the configured capacity 0 no frame is ever dropped: after
    pushing [frames] the buffer holds the old content followed by all of
    them, which is more than the capacity as soon as one frame was
    pushed, where the capacity's newest frames are none. With a
    capacity of at least 1 the buffer never grows beyond the capacity,
    and after at least [capacity] pushes it holds the [capacity] newest
    frames in arrival order. *)
Theorem frame_buffer_keeps_newest_unless_capacity_zero :
  forall (RawFrame Frame : Type) (normalize : RawFrame -> Frame)
         (settings : SystemSettings) (frames : list RawFrame)
         (p : RTSPProcessor Frame),
    let capacity := buffer_size settings in
    let p' := process_frames normalize settings frames p in
    (capacity = 0%Z ->
     frame_buffer p' = frame_buffer p ++ map normalize frames
     /\ (frames <> [] -> (Z.of_nat (length (frame_buffer p')) > capacity)%Z))
    /\ ((1 <= capacity)%Z ->
        (Z.of_nat (length (frame_buffer p)) <= capacity)%Z ->
        (Z.of_nat (length (frame_buffer p')) <= capacity)%Z
        /\ ((capacity <= Z.of_nat (length frames))%Z ->
            frame_buffer p'
            = map normalize (most_recent (Z.to_nat capacity) frames))).
Proof.
  intros RawFrame Frame normalize settings frames p capacity p'.
  split.
  - intros Hzero.
    assert (frame_buffer p' = frame_buffer p ++ map normalize frames) as E.
    { subst p'. revert p. unfold process_frames.
      induction frames as [ | f frames IH ]; intros p; simpl.
      - now rewrite app_nil_r.
      - rewrite IH, process_frame_buffer. fold capacity. rewrite Hzero.
        rewrite push_frame_capacity_zero, <- app_assoc. reflexivity. }
    split; [ exact E | ].
    intros Hne. rewrite E, length_app, length_map, Hzero.
    destruct frames; [ now elim Hne | simpl; lia ].
  - intros Hcap Hlen.
    exact (frame_buffer_bounded_positive_capacity normalize settings frames p
             Hcap Hlen).
Qed.

Lemma frame_buffer_keeps_newest_unless_capacity_zero_witness :
  let zero := {| frame_skip := 3; confidence_threshold := 0.7;
                 buffer_size := 0 |} in
  let two := {| frame_skip := 3; confidence_threshold := 0.7;
                buffer_size := 2 |} in
  let p := new_processor 0 "cam" "rtsp://cam" "" in
  (frame_buffer (process_frames (fun x : nat => x) zero [1; 2; 3]%nat p)
   = [1; 2; 3]%nat
   /\ (Z.of_nat
         (length (frame_buffer
                    (process_frames (fun x : nat => x) zero [1; 2; 3]%nat p)))
       > 0)%Z)
  /\ frame_buffer (process_frames (fun x : nat => x) two [1; 2; 3]%nat p)
     = [2; 3]%nat.
Proof.
  intros zero two p. split.
  - destruct (frame_buffer_keeps_newest_unless_capacity_zero nat nat
                (fun x => x) zero [1; 2; 3]%nat p) as [Hzero _].
    destruct (Hzero eq_refl) as [E G].
    split; [ exact E | apply G; discriminate ].
  - destruct (frame_buffer_keeps_newest_unless_capacity_zero nat nat
                (fun x => x) two [1; 2; 3]%nat p) as [_ Hpos].
    apply Hpos; simpl; lia.
Defined.

(** ** The detection loop *)

Section Detection.

Context {Frame : Type}.
Variable encode_thumbnail : Frame -> string.
Variable triton : list Frame -> option float32.

Lemma rev_nil_inv (l : list Frame) : rev l = [] -> l = [].
Proof.
  intros H. rewrite <- (rev_involutive l), H. reflexivity.
Qed.

(** What one iteration does, by the two guards of the source: nothing
    below the setting, a reset of the client on an empty window, and
    otherwise one inference call on the whole buffer and one result
    in the queue. *)
Lemma detection_iteration_cases (settings : SystemSettings) (now : Q)
    (p : RTSPProcessor Frame) :
  let len := Z.of_nat (length (frame_buffer p)) in
  let out := detection_iteration encode_thumbnail triton settings now p in
  ((len < buffer_size settings)%Z /\ out = (p, []))
  \/ ((buffer_size settings <= len)%Z /\ frame_buffer p = []
      /\ out = (set_triton_client false p, []))
  \/ ((buffer_size settings <= len)%Z /\ frame_buffer p <> []
      /\ snd out = [frame_buffer p]
      /\ exists r, results_queue (fst out) = results_queue p ++ [r]
                   /\ timestamp r = now
                   /\ stream_id r = p_stream_id p
                   /\ (is_violence r, confidence r)
                      = predict settings (triton (frame_buffer p))).
Proof.
  intros len out. subst len out. unfold detection_iteration, detect_violence.
  destruct (Z.of_nat (length (frame_buffer p)) >=? buffer_size settings)%Z
    eqn:G.
  - apply Z.geb_le in G.
    destruct (Z.of_nat (length (frame_buffer p)) <? buffer_size settings)%Z
      eqn:L; [ apply Z.ltb_lt in L; lia | ].
    right. destruct (rev (frame_buffer p)) as [ | last_frame others ] eqn:R.
    + left. apply rev_nil_inv in R. auto.
    + right. split; [ assumption | ]. split.
      { intros E. rewrite E in R. discriminate. }
      destruct (predict settings (triton (frame_buffer p)))
        as [violence conf].
      destruct violence; simpl; (split; [ reflexivity | ]);
        eexists; (split; [ reflexivity | ]); simpl; auto.
  - left. split; [ | reflexivity ].
    destruct (Z.geb_spec (Z.of_nat (length (frame_buffer p)))
                (buffer_size settings)); [ discriminate | lia ].
Qed.

End Detection.

(** C3. One iteration of the detection loop calls inference only when the
    buffer holds at least as many frames as the capacity read in that
    iteration, and then exactly once, on the whole buffer; this is a
    buffer of exactly [capacity] frames whenever the buffer does not
    exceed the capacity, as after pushes under that same capacity
    (at least 1). With fewer frames than the capacity there is no
    inference call, no result, and the processor is untouched. *)
Theorem detection_fires_when_buffer_reaches_capacity :
  forall (RawFrame Frame : Type) (normalize : RawFrame -> Frame)
         (encode_thumbnail : Frame -> string)
         (triton : list Frame -> option float32)
         (settings : SystemSettings) (now : Q) (p : RTSPProcessor Frame),
    let len := fun q : RTSPProcessor Frame =>
                 Z.of_nat (length (frame_buffer q)) in
    let run := detection_iteration encode_thumbnail triton settings now in
    (snd (run p) <> [] ->
     (buffer_size settings <= len p)%Z /\ snd (run p) = [frame_buffer p])
    /\ (snd (run p) <> [] -> (len p <= buffer_size settings)%Z ->
        len p = buffer_size settings)
    /\ (forall frames : list RawFrame,
          (1 <= buffer_size settings)%Z ->
          (len p <= buffer_size settings)%Z ->
          let q := process_frames normalize settings frames p in
          snd (run q) <> [] -> len q = buffer_size settings)
    /\ ((len p < buffer_size settings)%Z -> run p = (p, []))
    /\ ((buffer_size settings <= len p)%Z -> frame_buffer p <> [] ->
        snd (run p) = [frame_buffer p]
        /\ exists r, results_queue (fst (run p)) = results_queue p ++ [r]).
Proof.
  intros RawFrame Frame normalize encode_thumbnail triton settings now p len run.
  assert (forall q, snd (run q) <> [] ->
                    (buffer_size settings <= len q)%Z
                    /\ snd (run q) = [frame_buffer q]) as Fires.
  { intros q H. subst run len. cbv beta in *.
    destruct (detection_iteration_cases encode_thumbnail triton settings now q)
      as [ [_ E] | [ (_ & _ & E) | (G & _ & E & _) ] ].
    - rewrite E in H. now elim H.
    - rewrite E in H. now elim H.
    - auto. }
  split; [ exact (Fires p) | ].
  split; [ intros H L; apply Fires in H; lia | ].
  split.
  { intros frames Hcap Hlen q H. apply Fires in H.
    pose proof (frame_buffer_bounded_positive_capacity normalize settings
                  frames p Hcap Hlen) as [B _].
    fold q in B. subst len. cbv beta in *. lia. }
  subst run len. cbv beta.
  destruct (detection_iteration_cases encode_thumbnail triton settings now p)
    as [ [L E] | [ (G & N & E) | (G & N & E & r & Hr & _) ] ].
  - split; [ intros _; exact E | intros; lia ].
  - split; [ intros; lia | intros _ H; now elim H ].
  - split; [ intros; lia | intros _ _; split; [ exact E | now exists r ] ].
Qed.

Lemma detection_fires_when_buffer_reaches_capacity_witness :
  detection_iteration (fun _ : nat => "jpg") (fun _ => Some float32_0_9)
    default_settings 12 (new_processor 0 "cam" "rtsp://cam" "Door")
  = (new_processor 0 "cam" "rtsp://cam" "Door", []).
Proof.
  apply (detection_fires_when_buffer_reaches_capacity nat nat (fun x => x)
           (fun _ => "jpg") (fun _ => Some float32_0_9) default_settings 12
           (new_processor 0 "cam" "rtsp://cam" "Door")).
  simpl. lia.
Defined.

(** C3, counterexample to "exactly the capacity": three frames pushed
    under the capacity 3, then the capacity set to 2; the next iteration
    calls inference on the three frames, which is not the capacity. *)
Lemma detection_fires_on_buffer_longer_than_capacity :
  let three := {| frame_skip := 3; confidence_threshold := 0.7; buffer_size := 3 |} in
  let two := {| frame_skip := 3; confidence_threshold := 0.7; buffer_size := 2 |} in
  let p := process_frames (fun x : nat => x) three [1; 2; 3]%nat
             (new_processor 0 "cam" "rtsp://cam" "") in
  let out := detection_iteration (fun _ => "jpg") (fun _ => Some float32_0_9) two 12 p in
  snd out = [[1; 2; 3]%nat]
  /\ length (results_queue (fst out)) = 1%nat
  /\ Z.of_nat (length (frame_buffer p)) <> buffer_size two.
Proof.
  vm_compute. repeat split. discriminate.
Qed.

(** ** Draining the result queues *)

Section Drain.

Context {Frame : Type}.

(** The loop takes results from the front of the queue until
    [max_results] are held. *)
Lemma get_latest_results_loop_spec (max_results : Z)
    (queue results : list DetectionResult) :
  let k := Z.to_nat (max_results - Z.of_nat (length results)) in
  get_latest_results_loop max_results queue results
  = (results ++ firstn k queue, skipn k queue).
Proof.
  revert results. induction queue as [ | r queue IH ]; intros results k.
  - simpl. now rewrite firstn_nil, skipn_nil, app_nil_r.
  - simpl. destruct (Z.of_nat (length results) <? max_results)%Z eqn:E.
    + apply Z.ltb_lt in E. rewrite IH. rewrite length_app. simpl.
      assert (k = S (Z.to_nat
                       (max_results - Z.of_nat (length results + 1)))) as ->
        by (subst k; lia).
      simpl. now rewrite <- app_assoc.
    + apply Z.ltb_ge in E.
      assert (k = 0%nat) as -> by (subst k; lia).
      simpl. now rewrite app_nil_r.
Qed.

Lemma get_latest_results_spec (p : RTSPProcessor Frame) :
  get_latest_results default_max_results p
  = (firstn 10 (results_queue p),
     set_results_queue (skipn 10 (results_queue p)) p).
Proof.
  unfold get_latest_results.
  rewrite get_latest_results_loop_spec. reflexivity.
Qed.

Lemma drain_streams_spec (streams : Streams Frame) :
  drain_streams streams = (concat (map drained streams), map kept streams).
Proof.
  induction streams as [ | [id p] streams IH ]; [ reflexivity | ].
  cbn [drain_streams]. rewrite get_latest_results_spec, IH. reflexivity.
Qed.

Lemma insert_desc_perm (r : DetectionResult) (l : list DetectionResult) :
  Permutation (insert_desc r l) (r :: l).
Proof.
  induction l as [ | r' l IH ]; simpl; [ reflexivity | ].
  destruct (Qltb (timestamp r) (timestamp r')); [ | reflexivity ].
  rewrite IH. apply perm_swap.
Qed.

Lemma sort_by_timestamp_desc_perm (l : list DetectionResult) :
  Permutation (sort_by_timestamp_desc l) l.
Proof.
  induction l as [ | r l IH ]; simpl; [ reflexivity | ].
  rewrite insert_desc_perm. now apply perm_skip.
Qed.

Lemma newer_or_equal_trans (a b c : DetectionResult) :
  newer_or_equal a b -> newer_or_equal b c -> newer_or_equal a c.
Proof. unfold newer_or_equal. intros H1 H2. eapply Qle_trans; eauto. Qed.

Lemma insert_desc_sorted (r : DetectionResult) (l : list DetectionResult) :
  StronglySorted newer_or_equal l ->
  StronglySorted newer_or_equal (insert_desc r l).
Proof.
  induction 1 as [ | r' l Hs IH Hall ]; simpl.
  - constructor; constructor.
  - destruct (Qltb (timestamp r) (timestamp r')) eqn:E.
    + apply Qltb_lt in E. constructor; [ exact IH | ].
      eapply Permutation_Forall.
      * symmetry. apply insert_desc_perm.
      * constructor; [ | exact Hall ].
        unfold newer_or_equal. now apply Qlt_le_weak.
    + apply Qltb_ge in E. constructor.
      * now constructor.
      * constructor; [ exact E | ].
        eapply Forall_impl; [ exact Hall | ].
        intros c Hc. eapply newer_or_equal_trans; [ exact E | exact Hc ].
Qed.

Lemma sort_by_timestamp_desc_sorted (l : list DetectionResult) :
  StronglySorted newer_or_equal (sort_by_timestamp_desc l).
Proof.
  induction l as [ | r l IH ]; simpl.
  - constructor.
  - now apply insert_desc_sorted.
Qed.

Lemma drained_all (e : string * RTSPProcessor Frame) :
  (length (results_queue (snd e)) <= 10)%nat ->
  drained e = results_queue (snd e) /\ results_queue (snd (kept e)) = [].
Proof.
  intros H. unfold drained, kept. simpl. split.
  - now apply firstn_all2.
  - now apply skipn_all2.
Qed.

End Drain.

(** C2. One call of [get_latest_detections] takes from every stream, in
    registry order, the results at the front of its queue, at most 10 per
    stream, and returns them as one list sorted by timestamp, newest
    first; every queue keeps what lies beyond its first 10 results, and
    nothing else of the registry changes. When no queue holds more than
    10 results, all pending results are returned and every queue is left
    empty. *)
Theorem drain_takes_ten_per_stream_newest_first :
  forall (Frame : Type) (streams : Streams Frame),
    let out := get_latest_detections streams in
    StronglySorted newer_or_equal (fst out)
    /\ Permutation (fst out) (concat (map drained streams))
    /\ snd out = map kept streams
    /\ (Forall (fun e => (length (results_queue (snd e)) <= 10)%nat) streams ->
        Permutation (fst out)
          (concat (map (fun e => results_queue (snd e)) streams))
        /\ Forall (fun e => results_queue (snd e) = []) (snd out)).
Proof.
  intros Frame streams out. subst out. unfold get_latest_detections.
  rewrite drain_streams_spec. cbn [fst snd].
  split; [ apply sort_by_timestamp_desc_sorted | ].
  split; [ apply sort_by_timestamp_desc_perm | ].
  split; [ reflexivity | ].
  intros Hall. split.
  - rewrite sort_by_timestamp_desc_perm.
    assert (map drained streams
            = map (fun e => results_queue (snd e)) streams) as ->;
      [ | reflexivity ].
    induction Hall as [ | e l He _ IH ]; simpl; [ reflexivity | ].
    rewrite IH. f_equal. now apply drained_all.
  - rewrite Forall_map. eapply Forall_impl; [ exact Hall | ].
    intros e He. now apply drained_all.
Qed.

Lemma drain_takes_ten_per_stream_newest_first_witness :
  let streams :=
    [ ("a", processor_with_queue "a" [result_at "a" 6; result_at "a" 7]);
      ("b", processor_with_queue "b" [result_at "b" 5]) ] in
  Permutation (fst (get_latest_detections streams))
    [result_at "a" 6; result_at "a" 7; result_at "b" 5]
  /\ Forall (fun e => results_queue (snd e) = [])
       (snd (get_latest_detections streams)).
Proof.
  intros streams.
  apply (drain_takes_ten_per_stream_newest_first nat streams).
  repeat constructor; simpl; lia.
Defined.

(** C2, counterexample to "no result left behind": a stream with eleven
    pending results; one drain returns the ten oldest, newest first, and
    the eleventh stays in the queue. *)
Lemma drain_leaves_the_eleventh_result :
  let queue := map (result_at "cam") [1; 2; 3; 4; 5; 6; 7; 8; 9; 10; 11]%Z in
  let streams := [("cam", processor_with_queue "cam" queue)] in
  let out := get_latest_detections streams in
  fst out = map (result_at "cam") [10; 9; 8; 7; 6; 5; 4; 3; 2; 1]%Z
  /\ option_map results_queue (streams_get "cam" (snd out))
     = Some [result_at "cam" 11].
Proof.
  split; reflexivity.
Qed.

(** ** The registry *)

Section Registry.

Context {Frame : Type}.

Lemma streams_mem_get (id : string) (streams : Streams Frame) :
  streams_mem id streams = true <-> exists p, streams_get id streams = Some p.
Proof.
  unfold streams_mem. destruct (streams_get id streams) as [p | ]; split.
  - intros _. now exists p.
  - reflexivity.
  - discriminate.
  - intros [p H]. discriminate.
Qed.

Lemma streams_get_set_same (id : string) (p : RTSPProcessor Frame)
    (streams : Streams Frame) :
  streams_get id (streams_set id p streams) = Some p.
Proof.
  induction streams as [ | [k q] streams IH ]; simpl.
  - now rewrite String.eqb_refl.
  - destruct (String.eqb k id) eqn:E; simpl; rewrite E; auto.
Qed.

Lemma streams_get_set_other (id id' : string) (p : RTSPProcessor Frame)
    (streams : Streams Frame) :
  id <> id' ->
  streams_get id' (streams_set id p streams) = streams_get id' streams.
Proof.
  intros Hne. induction streams as [ | [k q] streams IH ]; simpl.
  - destruct (String.eqb_spec id id'); [ contradiction | reflexivity ].
  - destruct (String.eqb_spec k id) as [-> | Hk]; simpl.
    + destruct (String.eqb_spec id id'); [ contradiction | reflexivity ].
    + now rewrite IH.
Qed.

End Registry.

(** C8. When the id is already in the registry, [add_stream] raises
    inside its [try] the error "Stream <id> already exists", catches it
    there, and reports the failure to its caller by returning [False];
    the registry is left as it was, so the entry of the id is the same
    processor with the same url and name. The handler of POST
    /api/streams answers with an error of status 400 whose detail is the
    rendering of its own "Failed to add stream" error: neither result
    names the cause. A failure is reported for no other reason: with a
    fresh id [add_stream] returns [True], binds the id to a new processor
    and keeps the existing entry. *)
Theorem add_stream_duplicate_id_reported_as_false :
  forall (Frame : Type) (str : PyExn -> string) (now : Q)
         (id url nm : string)
         (streams : Streams Frame) (existing : RTSPProcessor Frame),
    streams_get id streams = Some existing ->
    add_stream_body now id url nm streams
    = inl (ValueError ("Stream " ++ id ++ " already exists")%string)
    /\ add_stream now id url nm streams = (false, streams)
    /\ streams_get id (snd (add_stream now id url nm streams)) = Some existing
    /\ post_api_streams str now id url nm streams
       = (inl (HTTPException 400
                 (str (HTTPException 400 "Failed to add stream"))), streams)
    /\ (forall (fresh : string),
          streams_get fresh streams = None ->
          fst (add_stream now fresh url nm streams) = true
          /\ streams_get fresh (snd (add_stream now fresh url nm streams))
             = Some (new_processor now fresh url nm)
          /\ streams_get id (snd (add_stream now fresh url nm streams))
             = Some existing).
Proof.
  intros Frame str now id url nm streams existing Hin.
  assert (streams_mem id streams = true) as Hmem
    by (apply streams_mem_get; now exists existing).
  unfold post_api_streams, add_stream, add_stream_body. rewrite Hmem. simpl.
  split; [ reflexivity | ]. split; [ reflexivity | ].
  split; [ exact Hin | ]. split; [ reflexivity | ].
  intros fresh Hfresh. unfold streams_mem. rewrite Hfresh. simpl.
  split; [ reflexivity | ]. split; [ apply streams_get_set_same | ].
  rewrite streams_get_set_other; [ exact Hin | ].
  intros ->. congruence.
Qed.

Lemma add_stream_duplicate_id_reported_as_false_witness :
  let streams := [("cam", processor_with_queue "cam" [result_at "cam" 1])] in
  add_stream 9 "cam" "rtsp://other" "Other" streams = (false, streams).
Proof.
  intros streams.
  apply (add_stream_duplicate_id_reported_as_false nat (fun _ => "") 9 "cam"
           "rtsp://other" "Other" streams
           (processor_with_queue "cam" [result_at "cam" 1])).
  reflexivity.
Defined.

(** C8, counterexample to "the typed failure is surfaced to the caller":
    adding the id "cam" a second time raises the [ValueError] only
    inside [add_stream]; its caller receives [False], and the client of
    the endpoint an error of status 400 that is not the [ValueError] and
    whose detail is the same whatever the id. *)
Lemma add_stream_duplicate_id_hides_the_cause :
  let streams : Streams nat :=
    [("cam", processor_with_queue "cam" [result_at "cam" 1])] in
  add_stream_body 9 "cam" "rtsp://other" "Other" streams
  = inl (ValueError "Stream cam already exists")
  /\ add_stream 9 "cam" "rtsp://other" "Other" streams = (false, streams)
  /\ (forall str : PyExn -> string,
        fst (post_api_streams str 9 "cam" "rtsp://other" "Other" streams)
        = inl (HTTPException 400
                 (str (HTTPException 400 "Failed to add stream")))
        /\ fst (post_api_streams str 9 "cam" "rtsp://other" "Other" streams)
           <> inl (ValueError "Stream cam already exists")).
Proof.
  intros streams. split; [ reflexivity | ]. split; [ reflexivity | ].
  intros str. split; [ reflexivity | discriminate ].
Qed.

(** ** The websocket hub *)

Lemma list_remove_first_absent (x : nat) (l : list nat) :
  ~ In x l -> list_remove_first x l = None.
Proof.
  induction l as [ | y l IH ]; simpl; intros H; [ reflexivity | ].
  destruct (Nat.eqb_spec y x) as [-> | Hne].
  - exfalso. apply H. now left.
  - rewrite IH; [ reflexivity | ]. intros Hin. apply H. now right.
Qed.

Lemma list_remove_first_present (x : nat) (l : list nat) :
  In x l ->
  exists before after,
    l = before ++ x :: after /\ ~ In x before
    /\ list_remove_first x l = Some (before ++ after).
Proof.
  induction l as [ | y l IH ]; simpl; intros H; [ contradiction | ].
  destruct (Nat.eqb_spec y x) as [-> | Hne].
  - exists [], l. simpl. auto.
  - destruct H as [-> | H]; [ congruence | ].
    destruct (IH H) as (before & after & -> & Hb & ->).
    exists (y :: before), after. simpl. repeat split.
    intros [E | Hin]; [ congruence | contradiction ].
Qed.

Lemma list_remove_first_skips (x : nat) (good rest : list nat) :
  ~ In x good ->
  list_remove_first x (good ++ x :: rest) = Some (good ++ rest).
Proof.
  induction good as [ | y good IH ]; simpl; intros H.
  - now rewrite Nat.eqb_refl.
  - destruct (Nat.eqb_spec y x) as [-> | Hne].
    + exfalso. apply H. now left.
    + rewrite IH; [ reflexivity | ]. intros Hin. apply H. now right.
Qed.

Lemma broadcast_fold (send_ok : WebSocket -> bool) (conns : list WebSocket) :
  forall good : list WebSocket,
    Forall (fun c => send_ok c = true) good ->
    fold_left
      (fun st connection =>
         match st with
         | (inr _, l) => disconnect connection l
         | (inl e, l) => (inl e, l)
         end)
      (List.filter (fun c => negb (send_ok c)) conns)
      (inr tt, good ++ conns)
    = (inr tt, good ++ List.filter send_ok conns).
Proof.
  induction conns as [ | c conns IH ]; intros good Hgood; simpl.
  - reflexivity.
  - destruct (send_ok c) eqn:E; simpl.
    + replace (good ++ c :: conns) with ((good ++ [c]) ++ conns)
        by (rewrite <- app_assoc; reflexivity).
      rewrite IH.
      * rewrite <- app_assoc. reflexivity.
      * apply Forall_app. split; [ exact Hgood | ].
        constructor; [ exact E | constructor ].
    + unfold disconnect at 2, py_list_remove.
      rewrite list_remove_first_skips.
      * apply IH. exact Hgood.
      * intros Hin. rewrite List.Forall_forall in Hgood.
        specialize (Hgood c Hin). congruence.
Qed.

Lemma broadcast_evicts (send_ok : WebSocket -> bool) (conns : list WebSocket) :
  broadcast send_ok conns = (inr tt, List.filter send_ok conns).
Proof.
  unfold broadcast. apply (broadcast_fold send_ok conns []). constructor.
Qed.

(** C9. [disconnect] is [list.remove]: for a subscriber that is not in
    the live list it raises [ValueError] and leaves the list as it is,
    where the claim has it succeed. The endpoint runs into this when a
    send to its websocket failed during a broadcast: the broadcast
    evicts the websocket, and the [disconnect] that the endpoint calls
    when the client goes away raises. For a subscriber in the list
    [disconnect] succeeds, removes its first entry and keeps the other
    entries in their order; [connect] changes nothing when the accept
    raises. *)
Theorem hub_disconnect_of_absent_subscriber_raises :
  forall (websocket : WebSocket) (active_connections : list WebSocket),
    (~ In websocket active_connections ->
     disconnect websocket active_connections
     = (inl (ValueError "list.remove(x): x not in list"),
        active_connections))
    /\ (forall send_ok : WebSocket -> bool,
          send_ok websocket = false ->
          let connected := snd (connect None websocket active_connections) in
          let evicted := snd (broadcast send_ok connected) in
          In websocket connected
          /\ evicted = List.filter send_ok active_connections
          /\ ~ In websocket evicted
          /\ disconnect websocket evicted
             = (inl (ValueError "list.remove(x): x not in list"), evicted))
    /\ (In websocket active_connections ->
        exists before after,
          active_connections = before ++ websocket :: after
          /\ ~ In websocket before
          /\ disconnect websocket active_connections
             = (inr tt, before ++ after))
    /\ (forall e, connect (Some e) websocket active_connections
                  = (inl e, active_connections)).
Proof.
  intros websocket active_connections.
  assert (forall l, ~ In websocket l ->
            disconnect websocket l
            = (inl (ValueError "list.remove(x): x not in list"), l))
    as Habsent.
  { intros l Hout. unfold disconnect, py_list_remove.
    now rewrite list_remove_first_absent. }
  split; [ apply Habsent | ]. split.
  - intros send_ok Hfail connected evicted.
    assert (evicted = List.filter send_ok active_connections) as Hev.
    { subst evicted connected. rewrite broadcast_evicts. cbn [connect snd].
      rewrite List.filter_app. cbn [List.filter]. rewrite Hfail.
      apply app_nil_r. }
    assert (~ In websocket evicted) as Hout.
    { rewrite Hev. intros Hin. apply filter_In in Hin. destruct Hin as [_ E].
      congruence. }
    split; [ | split; [ exact Hev | split; [ exact Hout | ] ] ].
    + subst connected. cbn [connect snd]. apply in_or_app. right. now left.
    + apply Habsent. exact Hout.
  - split; [ | reflexivity ].
    intros Hin.
    destruct (list_remove_first_present websocket active_connections Hin)
      as (before & after & E & Hb & R).
    exists before, after. unfold disconnect, py_list_remove.
    rewrite R. auto.
Qed.

Lemma hub_disconnect_of_absent_subscriber_raises_witness :
  disconnect 7%nat (snd (broadcast (fun _ => false)
                           (snd (connect None 7%nat []))))
  = (inl (ValueError "list.remove(x): x not in list"), []).
Proof.
  destruct (hub_disconnect_of_absent_subscriber_raises 7%nat [])
    as (_ & Hevicted & _).
  assert ((fun _ : WebSocket => false) 7%nat = false) as Hfail
    by reflexivity.
  destruct (Hevicted (fun _ => false) Hfail) as (_ & _ & _ & Hraises).
  exact Hraises.
Defined.

(** ** The notification throttle *)

Section Throttle.

Implicit Types (s : TelegramService) (sid : string) (now : Q).

Lemma adaptive_interval_Qmin (base count : Z) :
  (adaptive_interval base count
   == Qmin (inject_Z base * (1 + inject_Z count * (1 # 2))) 1800)%Q.
Proof.
  unfold adaptive_interval. rewrite py_min_Qmin.
  assert (0.5 == 1 # 2)%Q as -> by reflexivity. reflexivity.
Qed.

(** An event on an idle stream opens the episode. *)
Lemma should_send_opens now sid s :
  violence_events s !! sid = None ->
  should_send_notification now sid true s
  = (true,
     set_throttle (<[sid := now]> (last_notification_time s))
       (<[sid := opening_event now]> (violence_events s)) s,
     []).
Proof.
  intros H. unfold should_send_notification. simpl. now rewrite H.
Qed.

(** An event on a stream with an open episode: the decision and the
    count move together. *)
Lemma should_send_continues now sid s ev :
  violence_events s !! sid = Some ev ->
  let out := should_send_notification now sid true s in
  let s' := snd (fst out) in
  let interval :=
    adaptive_interval (notification_interval s) (notification_count ev) in
  let last := default 0%Q (last_notification_time s !! sid) in
  let due := ((notification_count ev <? max_notifications s)%Z
              && Qgeb (now - last) interval)%bool in
  fst (fst out) = due
  /\ snd out = []
  /\ exists ev',
      violence_events s' !! sid = Some ev'
      /\ ev_start_time ev' = ev_start_time ev
      /\ ev_last_detection ev' = now
      /\ max_confidence ev'
         = match current_detection_confidence s with
           | Some c => py_max (max_confidence ev) c
           | None => max_confidence ev
           end
      /\ notification_count ev'
         = (if due then notification_count ev + 1
            else notification_count ev)%Z
      /\ last_notification_time s'
         = (if due then <[sid := now]> (last_notification_time s)
            else last_notification_time s).
Proof.
  intros H out s' interval last due.
  subst out s' due interval last. unfold should_send_notification.
  simpl. rewrite H. simpl.
  destruct (notification_count ev >=? max_notifications s)%Z eqn:G.
  - assert ((notification_count ev <? max_notifications s)%Z = false) as ->
      by (apply Z.geb_le in G; apply Z.ltb_ge; lia).
    simpl. repeat split. eexists. rewrite lookup_insert_eq.
    repeat split.
  - assert ((notification_count ev <? max_notifications s)%Z = true) as ->.
    { apply Z.ltb_lt.
      destruct (Z.geb_spec (notification_count ev) (max_notifications s));
        [ discriminate | lia ]. }
    simpl.
    destruct (Qgeb _ _); simpl; repeat split; eexists;
      rewrite lookup_insert_eq; repeat split.
Qed.

(** A call leaves the settings alone, and the episodes of the other
    streams. *)
Lemma should_send_settings now sid (b : bool) s :
  let s' := snd (fst (should_send_notification now sid b s)) in
  enabled s' = enabled s
  /\ max_notifications s' = max_notifications s
  /\ notification_interval s' = notification_interval s.
Proof.
  unfold should_send_notification.
  destruct b; simpl.
  - destruct (violence_events s !! sid) as [ev | ]; simpl; [ | auto ].
    destruct (notification_count ev >=? max_notifications s)%Z; simpl;
      [ auto | ].
    destruct (Qgeb _ _); simpl; auto.
  - destruct (violence_events s !! sid); simpl; auto.
Qed.

Lemma should_send_other_stream now sid sid' (b : bool) s :
  sid' <> sid ->
  violence_events (snd (fst (should_send_notification now sid' b s))) !! sid
  = violence_events s !! sid.
Proof.
  intros Hne. unfold should_send_notification.
  destruct b; simpl.
  - destruct (violence_events s !! sid') as [ev | ]; simpl.
    + destruct (notification_count ev >=? max_notifications s)%Z; simpl;
        [ now rewrite lookup_insert_ne | ].
      destruct (Qgeb _ _); simpl; now rewrite lookup_insert_ne.
    + now rewrite lookup_insert_ne.
  - destruct (violence_events s !! sid'); simpl;
      [ now rewrite lookup_delete_ne | reflexivity ].
Qed.

End Throttle.

(** C1. An event detection on an idle stream makes [should_send_notification]
    return [True] and open an episode with [start_time] the current time
    and [notification_count] 0, and the enabled service sends the
    "started" message; the [max_confidence] of the new episode is 0.0
    whatever the confidence of the detection, and this 0.0 is what the
    message reports. *)
Theorem opening_episode_records_zero_max_confidence :
  forall (now now_msg : Q) (d : DetectionResult) (s : TelegramService),
    is_violence d = true ->
    violence_events s !! stream_id d = None ->
    let s0 := set_current_detection_confidence (confidence d) s in
    let out := should_send_notification now (stream_id d) true s0 in
    fst (fst out) = true
    /\ violence_events (snd (fst out)) !! stream_id d
       = Some {| ev_start_time := now; ev_last_detection := now;
                 notification_count := 0; max_confidence := 0.0 |}
    /\ last_notification_time (snd (fst out)) !! stream_id d = Some now
    /\ (enabled s = true ->
        exists m,
          fst (fst (handle_detection now now_msg d s)) = Some m
          /\ message_type m = ViolenceDetectionStarted
          /\ message_confidence m = confidence d
          /\ message_max_confidence m = Some 0.0%Q).
Proof.
  intros now now_msg d s Hev Hidle s0 out.
  assert (violence_events s0 !! stream_id d = None) as Hidle0 by exact Hidle.
  pose proof (should_send_opens now (stream_id d) s0 Hidle0) as E.
  subst out. rewrite E. simpl.
  split; [ reflexivity | ].
  split; [ apply lookup_insert_eq | ].
  split; [ apply lookup_insert_eq | ].
  intros Hen. unfold handle_detection. rewrite Hen, Hev. simpl.
  fold s0. rewrite E. simpl. rewrite lookup_insert_eq.
  eexists. split; [ reflexivity | ]. simpl. auto.
Qed.

Lemma opening_episode_records_zero_max_confidence_witness :
  let d := {| stream_id := "cam"; timestamp := 100; is_violence := true;
              confidence := 0.8; frame_data := "" |} in
  let s0 := set_current_detection_confidence (confidence d)
              new_telegram_service in
  let out := should_send_notification 100 "cam" true s0 in
  violence_events (snd (fst out)) !! "cam" = Some (opening_event 100)
  /\ ~ (max_confidence (opening_event 100) == confidence d)%Q.
Proof.
  intros d s0 out. split.
  - apply (opening_episode_records_zero_max_confidence 100 101 d
             new_telegram_service); reflexivity.
  - vm_compute. discriminate.
Defined.

(** C6. For an open episode whose count is below [max_notifications],
    the spacing required before the next notification is
    min(base_interval * (1 + notification_count * 0.5), 1800);
    the call returns [True] exactly when the time since the last
    notification is at least that spacing, and then the count is
    incremented and the last-notification time set to the current time;
    otherwise both stay. With the base interval 300 the spacing is 600
    at count 2 and 1800 at count 10. *)
Theorem continuing_notification_after_adaptive_interval :
  forall (now : Q) (sid : string) (s : TelegramService) (ev : EventInfo),
    violence_events s !! sid = Some ev ->
    (notification_count ev < max_notifications s)%Z ->
    let interval :=
      adaptive_interval (notification_interval s) (notification_count ev) in
    let last := default 0%Q (last_notification_time s !! sid) in
    let out := should_send_notification now sid true s in
    let s' := snd (fst out) in
    (interval
     == Qmin (inject_Z (notification_interval s)
              * (1 + inject_Z (notification_count ev) * (1 # 2))) 1800)%Q
    /\ (fst (fst out) = true <-> (interval <= now - last)%Q)
    /\ (exists ev',
          violence_events s' !! sid = Some ev'
          /\ ((interval <= now - last)%Q ->
              notification_count ev' = (notification_count ev + 1)%Z
              /\ last_notification_time s' !! sid = Some now)
          /\ (~ (interval <= now - last)%Q ->
              notification_count ev' = notification_count ev
              /\ last_notification_time s' = last_notification_time s))
    /\ (adaptive_interval 300 2 == 600)%Q
    /\ (adaptive_interval 300 10 == 1800)%Q.
Proof.
  intros now sid s ev Hopen Hbelow interval last out s'.
  split; [ apply adaptive_interval_Qmin | ].
  destruct (should_send_continues now sid s ev Hopen)
    as (Hdec & _ & ev' & Hev' & _ & _ & _ & Hcount & Hlast).
  fold interval last out s' in Hdec, Hev', Hcount, Hlast.
  assert ((notification_count ev <? max_notifications s)%Z = true) as Hlt
    by now apply Z.ltb_lt.
  rewrite Hlt in Hdec, Hcount, Hlast. simpl in Hdec, Hcount, Hlast.
  split.
  { rewrite Hdec. apply Qgeb_ge. }
  split; [ | split; reflexivity ].
  exists ev'. split; [ exact Hev' | ]. split.
  - intros Hdue. apply Qgeb_ge in Hdue. rewrite Hdue in Hcount, Hlast.
    split; [ exact Hcount | ]. rewrite Hlast. apply lookup_insert_eq.
  - intros Hnot.
    destruct (Qgeb (now - last) interval) eqn:E.
    + exfalso. apply Hnot. now apply Qgeb_ge.
    + auto.
Qed.

Lemma continuing_notification_after_adaptive_interval_witness :
  let ev := {| ev_start_time := 0; ev_last_detection := 900;
               notification_count := 2; max_confidence := 0.8 |} in
  let s := set_throttle (<["cam" := 400%Q]> ∅) (<["cam" := ev]> ∅)
             new_telegram_service in
  fst (fst (should_send_notification 1000 "cam" true s)) = true
  <-> (adaptive_interval 300 2 <= 1000 - 400)%Q.
Proof.
  intros ev s.
  apply (continuing_notification_after_adaptive_interval 1000 "cam" s ev).
  - reflexivity.
  - simpl. lia.
Defined.

(** ** Runs of the throttle *)

Section Runs.

Implicit Types (s : TelegramService) (sid : string) (c : Call).

Lemma handle_detection_disabled (now now_msg : Q) (d : DetectionResult) s :
  enabled s = false -> handle_detection now now_msg d s = (None, s, []).
Proof. intros H. unfold handle_detection. now rewrite H. Qed.

(** An enabled service sends a message exactly when the throttle says
    so, and keeps the state the throttle left. *)
Lemma handle_detection_enabled (now now_msg : Q) (d : DetectionResult) s :
  enabled s = true ->
  let s0 := set_current_detection_confidence (confidence d) s in
  let out :=
    should_send_notification now (stream_id d) (is_violence d) s0 in
  snd (fst (handle_detection now now_msg d s)) = snd (fst out)
  /\ (fst (fst out) = true ->
      exists m, fst (fst (handle_detection now now_msg d s)) = Some m)
  /\ (fst (fst out) = false ->
      fst (fst (handle_detection now now_msg d s)) = None).
Proof.
  intros Hen s0 out. unfold handle_detection. rewrite Hen. simpl.
  fold s0. fold out. destruct out as [[send s1] tasks]. simpl.
  destruct send; simpl.
  - split; [ reflexivity | ]. split; [ | discriminate ].
    intros _. eexists. reflexivity.
  - split; [ reflexivity | ]. split; [ discriminate | reflexivity ].
Qed.

(** One call, seen from the episode of [sid]. *)
Lemma throttle_step sid c s :
  (0 <= episode_count sid s <= Z.max 0 (max_notifications s))%Z ->
  (call_stream c = sid -> is_violence (call_detection c) = true) ->
  let out :=
    handle_detection (call_time c) (call_msg_time c) (call_detection c) s in
  let m := fst (fst out) in
  let s' := snd (fst out) in
  max_notifications s' = max_notifications s
  /\ (episode_count sid s <= episode_count sid s'
      <= Z.max 0 (max_notifications s))%Z
  /\ (is_open sid s -> is_open sid s')
  /\ (m <> None -> call_stream c = sid ->
      is_open sid s'
      /\ (is_open sid s ->
          episode_count sid s' = (episode_count sid s + 1)%Z))
  /\ (call_stream c = sid -> is_open sid s ->
      (max_notifications s <= episode_count sid s)%Z ->
      m = None /\ episode_count sid s' = episode_count sid s).
Proof.
  intros Hinv Hev out m s'. subst m s' out.
  destruct (enabled s) eqn:Hen.
  2:{ rewrite handle_detection_disabled by assumption. simpl.
      repeat split; try lia; try tauto; congruence. }
  destruct (handle_detection_enabled (call_time c) (call_msg_time c)
              (call_detection c) s Hen) as (Hs & Hsome & Hnone).
  rewrite Hs. clear Hs.
  set (s0 := set_current_detection_confidence
               (confidence (call_detection c)) s) in *.
  set (hd := fst (fst (handle_detection (call_time c) (call_msg_time c)
                         (call_detection c) s))) in *.
  assert (violence_events s0 = violence_events s) as Hsame by reflexivity.
  assert (max_notifications s0 = max_notifications s) as Hmax by reflexivity.
  destruct (should_send_settings (call_time c)
              (stream_id (call_detection c))
              (is_violence (call_detection c)) s0) as (_ & Hmax' & _).
  split; [ now rewrite Hmax' | ].
  destruct (String.eqb_spec (call_stream c) sid) as [Hsid | Hother].
  - specialize (Hev Hsid). unfold call_stream in Hsid.
    rewrite Hev in *. rewrite Hsid in *.
    unfold is_open, episode_count in *.
    destruct (violence_events s !! sid) as [ev | ] eqn:Hlook.
    + assert (violence_events s0 !! sid = Some ev) as Hlook0
        by (rewrite Hsame; exact Hlook).
      destruct (should_send_continues (call_time c) sid s0 ev Hlook0)
        as (Hdec & _ & ev' & Hev' & _ & _ & _ & Hcount & _).
      rewrite Hev'. rewrite Hmax in *.
      destruct (notification_count ev <? max_notifications s)%Z eqn:Hlt;
        simpl in Hdec, Hcount.
      * apply Z.ltb_lt in Hlt.
        destruct (Qgeb _ _); rewrite Hcount.
        -- repeat split; try lia; try congruence.
        -- specialize (Hnone Hdec).
           repeat split; try lia; try congruence.
      * apply Z.ltb_ge in Hlt. specialize (Hnone Hdec).
        repeat split; try lia; try congruence.
    + assert (violence_events s0 !! sid = None) as Hlook0
        by (rewrite Hsame; exact Hlook).
      rewrite (should_send_opens (call_time c) sid s0 Hlook0). simpl.
      rewrite lookup_insert_eq. simpl.
      repeat split; try lia; try congruence.
  - assert (violence_events
              (snd (fst (should_send_notification (call_time c)
                           (stream_id (call_detection c))
                           (is_violence (call_detection c)) s0))) !! sid
            = violence_events s !! sid) as Hkeep.
    { rewrite should_send_other_stream by exact Hother. now rewrite Hsame. }
    unfold is_open, episode_count. rewrite Hkeep.
    repeat split; try lia; try tauto; try contradiction.
Qed.

End Runs.

Section Episode.

Implicit Types (s : TelegramService) (sid : string).

Lemma messages_for_cons sid (st : Step) (trace : list Step) :
  messages_for sid (st :: trace)
  = ((if sent_for sid st then 1 else 0) + messages_for sid trace)%nat.
Proof.
  unfold messages_for. simpl. destruct (sent_for sid st); reflexivity.
Qed.

Lemma sent_for_true sid (st : Step) :
  sent_for sid st = true ->
  step_message st <> None /\ call_stream (step_call st) = sid.
Proof.
  unfold sent_for. destruct (step_message st); [ | discriminate ].
  intros H. split; [ discriminate | now apply String.eqb_eq ].
Qed.

(** The invariant of a run: from a state whose count is within the cap,
    every step keeps the cap and the count, never lowers the count,
    and sends nothing once the cap is reached; the messages sent for
    the stream are bounded by what is left below the cap. *)
Lemma run_detections_invariant sid (calls : list Call) :
  forall s,
    (0 <= episode_count sid s <= Z.max 0 (max_notifications s))%Z ->
    events_only sid calls ->
    let trace := run_detections calls s in
    Forall (step_respects_cap sid (max_notifications s)) trace
    /\ Forall (fun st => (episode_count sid s
                          <= episode_count sid (step_before st))%Z) trace
    /\ StronglySorted Z.le
         (map (fun st => episode_count sid (step_after st)) trace)
    /\ (Z.of_nat (messages_for sid trace)
        <= pending_start sid s + Z.max 0 (max_notifications s)
           - episode_count sid s)%Z.
Proof.
  induction calls as [ | c calls IH ]; intros s Hinv Hcalls trace.
  - subst trace. simpl. repeat split; try constructor.
    unfold messages_for, pending_start. simpl.
    destruct (violence_events s !! sid); lia.
  - inversion Hcalls as [ | c' calls' Hc Hrest ]; subst c' calls'.
    pose proof (throttle_step sid c s Hinv Hc)
      as (Hmax & Hcount & Hopen & Hsent & Hcap).
    subst trace. cbn [run_detections].
    destruct (handle_detection (call_time c) (call_msg_time c)
                (call_detection c) s) as [[m s'] tasks] eqn:E.
    cbn [fst snd] in Hmax, Hcount, Hopen, Hsent, Hcap.
    assert (0 <= episode_count sid s' <= Z.max 0 (max_notifications s'))%Z
      as Hinv' by (rewrite Hmax; lia).
    destruct (IH s' Hinv' Hrest) as (Hall & Hfrom & Hsorted & Hmsgs).
    rewrite Hmax in Hall, Hmsgs.
    split; [ | split; [ | split ] ].
    + constructor; [ | exact Hall ].
      unfold step_respects_cap. cbn [step_after step_before step_call
                                     step_message].
      auto.
    + constructor; [ cbn [step_before]; lia | ].
      eapply Forall_impl; [ exact Hfrom | ].
      intros st Hst. cbn beta in *. lia.
    + cbn [map step_after]. constructor; [ exact Hsorted | ].
      rewrite Forall_map.
      rewrite Forall_lookup in Hall, Hfrom. apply Forall_lookup.
      intros i st Hi. specialize (Hall i st Hi). specialize (Hfrom i st Hi).
      destruct Hall as (_ & Hstep & _). cbn beta in *. lia.
    + rewrite messages_for_cons.
      destruct (sent_for sid _) eqn:Hs.
      * apply sent_for_true in Hs. cbn [step_message step_call] in Hs.
        destruct Hs as [Hm Hsid].
        destruct (Hsent Hm Hsid) as [Hopen' Hinc].
        unfold pending_start in *. unfold is_open in *.
        destruct (violence_events s' !! sid) eqn:L';
          [ | now elim Hopen' ].
        destruct (violence_events s !! sid) eqn:L.
        -- assert (episode_count sid s' = (episode_count sid s + 1)%Z)
             by (apply Hinc; discriminate).
           lia.
        -- unfold episode_count in Hinv |- *. rewrite L in *. lia.
      * unfold pending_start, is_open in *.
        destruct (violence_events s !! sid) eqn:L.
        -- destruct (violence_events s' !! sid) eqn:L';
             [ lia | exfalso; apply Hopen; [ discriminate | reflexivity ] ].
        -- destruct (violence_events s' !! sid) eqn:L'; lia.
Qed.

End Episode.

(** C7. In a run of [handle_detection] calls that starts with the stream
    idle and in which every detection of the stream is an event (one
    episode, during which the settings are not changed): no call lowers
    the notification count of the stream, the count never exceeds
    [max_notifications] or, when that is negative, 0, and a call made
    when the episode is open and the count has reached
    [max_notifications] sends no message and leaves the count as it is.
    The messages sent for the stream are at most one "started" and
    [max_notifications] further ones. *)
Theorem notification_count_monotone_and_capped :
  forall (sid : string) (s : TelegramService) (calls : list Call),
    violence_events s !! sid = None ->
    events_only sid calls ->
    let trace := run_detections calls s in
    let cap := max_notifications s in
    Forall (fun st =>
              max_notifications (step_after st) = cap
              /\ (episode_count sid (step_before st)
                  <= episode_count sid (step_after st) <= Z.max 0 cap)%Z
              /\ (call_stream (step_call st) = sid ->
                  is_open sid (step_before st) ->
                  (cap <= episode_count sid (step_before st))%Z ->
                  step_message st = None
                  /\ episode_count sid (step_after st)
                     = episode_count sid (step_before st))) trace
    /\ StronglySorted Z.le
         (map (fun st => episode_count sid (step_after st)) trace)
    /\ (Z.of_nat (messages_for sid trace) <= 1 + Z.max 0 cap)%Z.
Proof.
  intros sid s calls Hidle Hcalls trace cap.
  assert (episode_count sid s = 0%Z) as Hzero
    by (unfold episode_count; now rewrite Hidle).
  assert (0 <= episode_count sid s <= Z.max 0 (max_notifications s))%Z
    as Hinv by lia.
  destruct (run_detections_invariant sid calls s Hinv Hcalls)
    as (Hall & _ & Hsorted & Hmsgs).
  fold trace in Hall, Hsorted, Hmsgs.
  split; [ exact Hall | ]. split; [ exact Hsorted | ].
  unfold pending_start in Hmsgs. rewrite Hidle in Hmsgs.
  subst cap. lia.
Qed.

Lemma notification_count_monotone_and_capped_witness :
  let calls :=
    [ event_call "cam" 0 0.8; event_call "cam" 1000 0.85;
      event_call "cam" 3000 0.9; event_call "cam" 5000 0.8;
      event_call "cam" 8000 0.8; event_call "cam" 11000 0.8;
      event_call "cam" 14000 0.8; event_call "cam" 17000 0.8 ] in
  (Z.of_nat (messages_for "cam" (run_detections calls enabled_service))
   <= 1 + Z.max 0 5)%Z
  /\ messages_for "cam" (run_detections calls enabled_service) = 6%nat
  /\ map (fun st => episode_count "cam" (step_after st))
       (run_detections calls enabled_service)
     = [0; 1; 2; 3; 4; 5; 5; 5]%Z.
Proof.
  intros calls. split.
  - apply (notification_count_monotone_and_capped "cam" enabled_service calls).
    + reflexivity.
    + repeat constructor.
  - split; vm_compute; reflexivity.
Defined.

(** C7, counterexamples to "never exceeds max_notifications". With
    [max_notifications = -1] the episode opens with the count 0, above
    the cap. With the cap 5 the count reaches 3; [update_settings] then
    lowers the cap to 2 and the same episode goes on with the count 3,
    above the cap. *)
Lemma notification_count_above_the_cap :
  (let s := update_settings
              {| ts_enabled := true; ts_notification_interval := 300;
                 ts_max_notifications := -1 |} new_telegram_service in
   let s' := final_service s (run_detections [event_call "cam" 0 0.8] s) in
   is_open "cam" s'
   /\ episode_count "cam" s' = 0%Z
   /\ max_notifications s' = (-1)%Z
   /\ (max_notifications s' < episode_count "cam" s')%Z)
  /\ (let calls :=
        [ event_call "cam" 0 0.8; event_call "cam" 1000 0.85;
          event_call "cam" 3000 0.9; event_call "cam" 5000 0.8 ] in
      let s1 := final_service enabled_service
                  (run_detections calls enabled_service) in
      let s2 := update_settings
                  {| ts_enabled := true; ts_notification_interval := 300;
                     ts_max_notifications := 2 |} s1 in
      let s3 := final_service s2
                  (run_detections [event_call "cam" 5001 0.8] s2) in
      episode_count "cam" s1 = 3%Z
      /\ max_notifications s1 = 5%Z
      /\ is_open "cam" s3
      /\ episode_count "cam" s3 = 3%Z
      /\ max_notifications s3 = 2%Z
      /\ (max_notifications s3 < episode_count "cam" s3)%Z).
Proof.
  vm_compute. repeat split; discriminate.
Qed.

(** * Further properties *)

(** ** The websocket hub: eviction and round trip *)

(** X1. A broadcast never raises and leaves exactly the subscribers whose
    send succeeded, in their order (every entry of a subscriber whose
    send failed is removed). *)
Theorem broadcast_keeps_exactly_the_reachable :
  forall (send_ok : WebSocket -> bool) (active_connections : list WebSocket),
    broadcast send_ok active_connections
    = (inr tt, List.filter send_ok active_connections).
Proof.
  intros send_ok conns. unfold broadcast.
  apply (broadcast_fold send_ok conns []). constructor.
Qed.

(** X2. Connecting a websocket that is not yet in the list and then
    disconnecting it succeeds and restores the list. *)
Theorem connect_then_disconnect_restores :
  forall (websocket : WebSocket) (active_connections : list WebSocket),
    ~ In websocket active_connections ->
    disconnect websocket (snd (connect None websocket active_connections))
    = (inr tt, active_connections).
Proof.
  intros ws conns Hfresh. simpl. unfold disconnect, py_list_remove.
  rewrite list_remove_first_skips by exact Hfresh.
  now rewrite app_nil_r.
Qed.

Lemma connect_then_disconnect_restores_witness :
  disconnect 7%nat (snd (connect None 7%nat [3; 4]%nat))
  = (inr tt, [3; 4]%nat).
Proof.
  apply (connect_then_disconnect_restores 7%nat [3; 4]%nat).
  simpl. lia.
Defined.

(** ** The processor life cycle *)

(** X3. On the flags, buffer, statistics, queue and client of a
    processor: [start] on a running processor changes nothing, so a
    second [start] is a no-op; [stop] twice is [stop] once, and [stop] on
    a processor that was never started changes nothing. A [start] after a
    [stop] always resets: the buffer is empty, fps, frame and detection
    counters are 0 and the last detection is forgotten, while the queue
    of results not yet drained, the id, url and name are kept. *)
Theorem start_and_stop_are_idempotent :
  forall (Frame : Type) (now now' : Q) (id url nm : string)
         (p : RTSPProcessor Frame),
    start now' (start now p) = start now p
    /\ is_running (start now p) = true
    /\ stop (stop p) = stop p
    /\ stop (new_processor (Frame := Frame) now id url nm)
       = new_processor now id url nm
    /\ (let q := start now (stop p) in
        frame_buffer q = [] /\ total_frames q = 0%Z
        /\ detection_count q = 0%Z /\ last_detection q = None
        /\ fps q = 0%Q /\ start_time q = now
        /\ is_running q = true /\ detection_running q = true
        /\ results_queue q = results_queue p
        /\ p_stream_id q = p_stream_id p /\ rtsp_url q = rtsp_url p
        /\ name q = name p).
Proof.
  intros Frame now now' id url nm p.
  split.
  { unfold start. destruct (is_running p) eqn:E; [ now rewrite E | ].
    reflexivity. }
  split.
  { unfold start. destruct (is_running p) eqn:E; [ exact E | reflexivity ]. }
  repeat split.
Qed.

(** ** The registry: removal, round trip, well-formedness *)

Section RegistryOps.

Context {Frame : Type}.
Implicit Types (streams : Streams Frame) (p q : RTSPProcessor Frame).

Lemma streams_get_none_keys (id : string) streams :
  streams_get id streams = None <-> ~ In id (map fst streams).
Proof.
  induction streams as [ | [k q] streams IH ]; simpl.
  - tauto.
  - destruct (String.eqb_spec k id) as [-> | Hne].
    + split; [ discriminate | intros H; exfalso; apply H; now left ].
    + rewrite IH. tauto.
Qed.

Lemma streams_get_in (id : string) p streams :
  streams_get id streams = Some p -> In (id, p) streams.
Proof.
  induction streams as [ | [k q] streams IH ]; simpl; [ discriminate | ].
  destruct (String.eqb_spec k id) as [-> | Hne].
  - intros [= ->]. now left.
  - intros H. right. now apply IH.
Qed.

Lemma streams_in_get (id : string) p streams :
  List.NoDup (map fst streams) -> In (id, p) streams ->
  streams_get id streams = Some p.
Proof.
  induction streams as [ | [k q] streams IH ]; simpl; [ tauto | ].
  intros Hnd Hin. inversion Hnd as [ | k' ks Hk Hrest ]; subst.
  destruct Hin as [[= -> ->] | Hin].
  - now rewrite String.eqb_refl.
  - destruct (String.eqb_spec k id) as [-> | Hne].
    + exfalso. apply Hk. apply (in_map fst) in Hin. exact Hin.
    + now apply IH.
Qed.

Lemma streams_set_present (id : string) p q streams :
  streams_get id streams = Some q ->
  map fst (streams_set id p streams) = map fst streams.
Proof.
  induction streams as [ | [k r] streams IH ]; simpl; [ discriminate | ].
  destruct (String.eqb_spec k id) as [-> | Hne]; simpl.
  - reflexivity.
  - intros H. now rewrite IH.
Qed.

Lemma streams_set_absent (id : string) p streams :
  streams_get id streams = None ->
  streams_set id p streams = streams ++ [(id, p)].
Proof.
  induction streams as [ | [k r] streams IH ]; simpl; [ reflexivity | ].
  destruct (String.eqb_spec k id) as [-> | Hne]; [ discriminate | ].
  intros H. now rewrite IH.
Qed.

Lemma streams_set_entries (id : string) p streams :
  p_stream_id p = id ->
  Forall (fun e => p_stream_id (snd e) = fst e) streams ->
  Forall (fun e => p_stream_id (snd e) = fst e) (streams_set id p streams).
Proof.
  intros Hp. induction 1 as [ | [k r] streams He Hrest IH ]; simpl.
  - constructor; [ exact Hp | constructor ].
  - destruct (String.eqb_spec k id) as [-> | Hne].
    + constructor; [ exact Hp | exact Hrest ].
    + constructor; [ exact He | exact IH ].
Qed.

Lemma streams_del_absent (id : string) streams :
  streams_get id streams = None -> streams_del id streams = streams.
Proof.
  induction streams as [ | [k r] streams IH ]; simpl; [ reflexivity | ].
  destruct (String.eqb_spec k id) as [-> | Hne]; [ discriminate | ].
  intros H. now rewrite IH.
Qed.

Lemma streams_del_last (id : string) p streams :
  streams_get id streams = None ->
  streams_del id (streams ++ [(id, p)]) = streams.
Proof.
  induction streams as [ | [k r] streams IH ]; simpl.
  - now rewrite String.eqb_refl.
  - destruct (String.eqb_spec k id) as [-> | Hne]; [ discriminate | ].
    intros H. now rewrite IH.
Qed.

Lemma streams_del_other (id id' : string) streams :
  id' <> id ->
  streams_get id' (streams_del id streams) = streams_get id' streams.
Proof.
  intros Hne. induction streams as [ | [k r] streams IH ]; simpl.
  - reflexivity.
  - destruct (String.eqb_spec k id) as [-> | Hk]; simpl.
    + destruct (String.eqb_spec id id'); [ congruence | reflexivity ].
    + now rewrite IH.
Qed.

Lemma streams_del_sub (id : string) streams :
  forall e, In e (streams_del id streams) -> In e streams.
Proof.
  induction streams as [ | [k r] streams IH ]; simpl; [ tauto | ].
  destruct (String.eqb k id); simpl.
  - intros e H. now right.
  - intros e [H | H]; [ now left | right; now apply IH ].
Qed.

Lemma streams_del_keys (id : string) streams :
  List.NoDup (map fst streams) ->
  List.NoDup (map fst (streams_del id streams))
  /\ ~ In id (map fst (streams_del id streams)).
Proof.
  induction streams as [ | [k r] streams IH ]; simpl; intros Hnd.
  - split; [ constructor | tauto ].
  - inversion Hnd as [ | k' ks Hk Hrest ]; subst.
    destruct (String.eqb_spec k id) as [-> | Hne]; simpl.
    + split; assumption.
    + destruct (IH Hrest) as [Hnd' Hout]. split.
      * constructor; [ | exact Hnd' ].
        intros Hin. apply Hk. rewrite in_map_iff in Hin |- *.
        destruct Hin as (e & He & Hin). exists e. split; [ exact He | ].
        now apply (streams_del_sub id).
      * intros [E | Hin]; [ congruence | contradiction ].
Qed.

Lemma remove_stream_present (id : string) p streams :
  streams_get id streams = Some p ->
  remove_stream id streams = (true, streams_del id streams).
Proof.
  intros H. unfold remove_stream. rewrite H. f_equal.
  clear H. induction streams as [ | [k r] streams IH ]; simpl.
  - now rewrite String.eqb_refl.
  - destruct (String.eqb_spec k id) as [-> | Hne]; simpl.
    + now rewrite String.eqb_refl.
    + destruct (String.eqb_spec k id); [ contradiction | ]. now rewrite IH.
Qed.

End RegistryOps.

(** X4. For a registry with one entry per id: removing an unknown id
    returns [False] and changes nothing; removing a known id returns
    [True], after which the id is unknown and every other id has the
    entry it had. *)
Theorem remove_stream_deletes_only_that_stream :
  forall (Frame : Type) (id : string) (streams : Streams Frame),
    List.NoDup (map fst streams) ->
    (streams_get id streams = None ->
     remove_stream id streams = (false, streams))
    /\ (forall p, streams_get id streams = Some p ->
          fst (remove_stream id streams) = true
          /\ streams_get id (snd (remove_stream id streams)) = None
          /\ forall id', id' <> id ->
               streams_get id' (snd (remove_stream id streams))
               = streams_get id' streams).
Proof.
  intros Frame id streams Hnd. split.
  - intros H. unfold remove_stream. now rewrite H.
  - intros p Hp. rewrite (remove_stream_present id p streams Hp). simpl.
    split; [ reflexivity | ]. split.
    + apply streams_get_none_keys. now apply streams_del_keys.
    + intros id' Hne. now apply streams_del_other.
Qed.

Lemma remove_stream_deletes_only_that_stream_witness :
  let streams :=
    [ ("a", processor_with_queue "a" []); ("b", processor_with_queue "b" []) ] in
  remove_stream "c" streams = (false, streams).
Proof.
  intros streams.
  apply (remove_stream_deletes_only_that_stream nat "c" streams).
  - repeat constructor; simpl; intuition discriminate.
  - reflexivity.
Defined.

(** X5. For an unknown stream id the handlers of DELETE /api/streams/{id},
    POST /api/streams/{id}/start and POST /api/streams/{id}/stop answer
    with status 400, the 404 they raise being caught and wrapped by their
    own handler, and leave the registry as it is. *)
Theorem unknown_stream_is_answered_with_400 :
  forall (Frame : Type) (str : PyExn -> string) (now : Q) (id : string)
         (streams : Streams Frame),
    streams_get id streams = None ->
    let wrapped :=
      HTTPException 400 (str (HTTPException 404 "Stream not found")) in
    delete_api_streams str id streams = (inl wrapped, streams)
    /\ post_api_streams_start str now id streams = (inl wrapped, streams)
    /\ post_api_streams_stop str id streams = (inl wrapped, streams).
Proof.
  intros Frame str now id streams H wrapped.
  unfold delete_api_streams, post_api_streams_start, post_api_streams_stop,
    remove_stream, start_detection, stop_detection.
  rewrite H. repeat split.
Qed.

Lemma unknown_stream_is_answered_with_400_witness :
  delete_api_streams (fun _ => "404: Stream not found") "c"
    [("a", processor_with_queue "a" [])]
  = (inl (HTTPException 400 "404: Stream not found"),
     [("a", processor_with_queue "a" [])]).
Proof.
  apply (unknown_stream_is_answered_with_400 nat
           (fun _ => "404: Stream not found") 0 "c"
           [("a", processor_with_queue "a" [])]).
  reflexivity.
Defined.

(** X6. Adding a stream under a fresh id and removing it again succeeds
    twice and gives back the registry as it was. *)
Theorem add_then_remove_restores_registry :
  forall (Frame : Type) (now : Q) (id url nm : string)
         (streams : Streams Frame),
    streams_get id streams = None ->
    fst (add_stream now id url nm streams) = true
    /\ remove_stream id (snd (add_stream now id url nm streams))
       = (true, streams).
Proof.
  intros Frame now id url nm streams H.
  unfold add_stream, add_stream_body, streams_mem. rewrite H. simpl.
  split; [ reflexivity | ].
  rewrite (remove_stream_present id (new_processor now id url nm))
    by apply streams_get_set_same.
  f_equal. rewrite streams_set_absent by exact H.
  now apply streams_del_last.
Qed.

Lemma add_then_remove_restores_registry_witness :
  remove_stream "b"
    (snd (add_stream 5 "b" "rtsp://b" ""
            [("a", processor_with_queue "a" [])]))
  = (true, [("a", processor_with_queue "a" [])]).
Proof.
  apply (add_then_remove_restores_registry nat 5 "b" "rtsp://b" ""
           [("a", processor_with_queue "a" [])]).
  reflexivity.
Defined.

Section RegistryInvariant.

Context {Frame : Type}.
Implicit Types (streams : Streams Frame) (p q : RTSPProcessor Frame).

Lemma registry_ok_set (id : string) p q streams :
  streams_get id streams = Some q -> p_stream_id p = id ->
  registry_ok streams -> registry_ok (streams_set id p streams).
Proof.
  intros Hq Hp [Hnd Hall]. split.
  - now rewrite (streams_set_present id p q streams Hq).
  - now apply streams_set_entries.
Qed.

Lemma registry_ok_start (now : Q) (id : string) streams :
  registry_ok streams -> registry_ok (snd (start_detection now id streams)).
Proof.
  intros Hok. unfold start_detection.
  destruct (streams_get id streams) as [q | ] eqn:Hq; simpl; [ | exact Hok ].
  apply (registry_ok_set id _ q); [ exact Hq | | exact Hok ].
  destruct Hok as [_ Hall]. rewrite List.Forall_forall in Hall.
  specialize (Hall _ (streams_get_in id q streams Hq)). simpl in Hall.
  unfold start. destruct (is_running q); exact Hall.
Qed.

Lemma registry_ok_stop (id : string) streams :
  registry_ok streams -> registry_ok (snd (stop_detection id streams)).
Proof.
  intros Hok. unfold stop_detection.
  destruct (streams_get id streams) as [q | ] eqn:Hq; simpl; [ | exact Hok ].
  apply (registry_ok_set id _ q); [ exact Hq | | exact Hok ].
  destruct Hok as [_ Hall]. rewrite List.Forall_forall in Hall.
  exact (Hall _ (streams_get_in id q streams Hq)).
Qed.

Lemma registry_ok_restart (now : Q) (ids : list string) :
  forall streams,
    registry_ok streams ->
    registry_ok
      (fold_left
         (fun streams id =>
            snd (start_detection now id (snd (stop_detection id streams))))
         ids streams).
Proof.
  induction ids as [ | id ids IH ]; intros streams Hok; simpl.
  - exact Hok.
  - apply IH. now apply registry_ok_start, registry_ok_stop.
Qed.

End RegistryInvariant.

(** X7. The registry stays well formed: starting from the empty registry,
    [add_stream], [remove_stream], [start_detection], [stop_detection],
    the drain of [get_latest_detections] and the restart of the active
    streams all keep one entry per id, each entry holding the processor
    that carries that id. *)
Theorem registry_stays_well_formed :
  forall (Frame : Type) (now : Q) (id url nm : string)
         (streams : Streams Frame),
    registry_ok (@nil (string * RTSPProcessor Frame))
    /\ (registry_ok streams ->
        registry_ok (snd (add_stream now id url nm streams))
        /\ registry_ok (snd (remove_stream id streams))
        /\ registry_ok (snd (start_detection now id streams))
        /\ registry_ok (snd (stop_detection id streams))
        /\ registry_ok (snd (get_latest_detections streams))
        /\ registry_ok (restart_active_streams now streams)).
Proof.
  intros Frame now id url nm streams. split.
  { split; constructor. }
  intros Hok. pose proof Hok as [Hnd Hall].
  split; [ | split; [ | split; [ | split; [ | split ] ] ] ].
  - unfold add_stream, add_stream_body, streams_mem.
    destruct (streams_get id streams) as [q | ] eqn:Hq; simpl;
      [ exact Hok | ].
    rewrite streams_set_absent by exact Hq. split.
    + rewrite map_app. simpl. apply NoDup_app_remove_l with (l := []).
      simpl. apply (Permutation_NoDup (l := id :: map fst streams)).
      * apply Permutation_cons_append.
      * constructor; [ now apply streams_get_none_keys | exact Hnd ].
    + apply Forall_app. split; [ exact Hall | ].
      constructor; [ reflexivity | constructor ].
  - unfold remove_stream.
    destruct (streams_get id streams) as [q | ] eqn:Hq; [ | exact Hok ].
    pose proof (remove_stream_present id q streams Hq) as E.
    unfold remove_stream in E. rewrite Hq in E. injection E as ->.
    simpl. split.
    + now apply streams_del_keys.
    + rewrite List.Forall_forall in Hall |- *.
      intros e He. apply Hall. now apply (streams_del_sub id).
  - now apply registry_ok_start.
  - now apply registry_ok_stop.
  - unfold get_latest_detections. rewrite drain_streams_spec. simpl.
    split.
    + rewrite map_map. simpl. exact Hnd.
    + rewrite Forall_map. eapply Forall_impl; [ exact Hall | ].
      intros e He. exact He.
  - unfold restart_active_streams. now apply registry_ok_restart.
Qed.

Lemma registry_stays_well_formed_witness :
  registry_ok
    (snd (add_stream 5 "b" "rtsp://b" "" [("a", processor_with_queue "a" [])])).
Proof.
  apply (registry_stays_well_formed nat 5 "b" "rtsp://b" ""
           [("a", processor_with_queue "a" [])]).
  split; repeat constructor; simpl; intuition discriminate.
Defined.

Section ActiveStreams.

Context {Frame : Type}.
Implicit Types (streams : Streams Frame) (p q : RTSPProcessor Frame).

Lemma active_streams_iff (id : string) streams :
  List.NoDup (map fst streams) ->
  In id (get_active_streams streams)
  <-> exists p, streams_get id streams = Some p /\ is_running p = true.
Proof.
  intros Hnd. unfold get_active_streams. rewrite in_map_iff. split.
  - intros ([k p] & Hk & Hin). simpl in Hk. subst k.
    apply filter_In in Hin. destruct Hin as [Hin Hrun]. simpl in Hrun.
    exists p. split; [ now apply streams_in_get | exact Hrun ].
  - intros (p & Hp & Hrun). exists (id, p). split; [ reflexivity | ].
    apply filter_In. split; [ now apply streams_get_in | exact Hrun ].
Qed.

(** One stop and start of [id0], seen from the entry of [id]. *)
Lemma restart_one (now : Q) (id0 id : string) p streams :
  streams_get id streams = Some p ->
  streams_get id
    (snd (start_detection now id0 (snd (stop_detection id0 streams))))
  = Some (if String.eqb id0 id then start now (stop p) else p).
Proof.
  intros Hp. unfold stop_detection.
  destruct (String.eqb_spec id0 id) as [-> | Hne].
  - rewrite Hp. simpl. unfold start_detection.
    rewrite streams_get_set_same. simpl. apply streams_get_set_same.
  - destruct (streams_get id0 streams) as [q | ] eqn:Hq; simpl.
    + unfold start_detection. rewrite streams_get_set_same. simpl.
      now rewrite !streams_get_set_other by exact Hne.
    + unfold start_detection. rewrite Hq. simpl. exact Hp.
Qed.

Lemma restart_many (now : Q) (ids : list string) :
  forall (id : string) p streams,
    streams_get id streams = Some p ->
    streams_get id
      (fold_left
         (fun streams id0 =>
            snd (start_detection now id0 (snd (stop_detection id0 streams))))
         ids streams)
    = Some (if existsb (fun id0 => String.eqb id0 id) ids
            then start now (stop p) else p).
Proof.
  induction ids as [ | id0 ids IH ]; intros id p streams Hp; simpl.
  - exact Hp.
  - rewrite (IH id _ _ (restart_one now id0 id p streams Hp)).
    destruct (String.eqb id0 id); simpl; [ | reflexivity ].
    destruct (existsb _ ids); reflexivity.
Qed.

End ActiveStreams.

(** X8. For a registry with one entry per id, the active streams are the
    ids whose processor is running: after [start_detection] the id is
    active, after [stop_detection] it is not, and both leave the entries
    of the other ids alone; for an unknown id both return [False] and
    change nothing. *)
Theorem active_streams_follow_start_and_stop :
  forall (Frame : Type) (now : Q) (id : string) (streams : Streams Frame),
    List.NoDup (map fst streams) ->
    (forall id',
        In id' (get_active_streams streams)
        <-> exists p, streams_get id' streams = Some p /\ is_running p = true)
    /\ (forall p, streams_get id streams = Some p ->
          fst (start_detection now id streams) = true
          /\ fst (stop_detection id streams) = true
          /\ In id (get_active_streams (snd (start_detection now id streams)))
          /\ ~ In id (get_active_streams (snd (stop_detection id streams))))
    /\ (streams_get id streams = None ->
        start_detection now id streams = (false, streams)
        /\ stop_detection id streams = (false, streams))
    /\ (forall id', id' <> id ->
          streams_get id' (snd (start_detection now id streams))
          = streams_get id' streams
          /\ streams_get id' (snd (stop_detection id streams))
             = streams_get id' streams).
Proof.
  intros Frame now id streams Hnd.
  split; [ intros id'; now apply active_streams_iff | ].
  split.
  { intros p Hp. unfold start_detection, stop_detection. rewrite Hp. simpl.
    split; [ reflexivity | ]. split; [ reflexivity | ]. split.
    - apply active_streams_iff.
      + now rewrite (streams_set_present id _ p streams Hp).
      + exists (start now p). split; [ apply streams_get_set_same | ].
        unfold start. destruct (is_running p) eqn:E; [ exact E | reflexivity ].
    - intros Hin. apply active_streams_iff in Hin.
      + destruct Hin as (q & Hq & Hrun).
        rewrite streams_get_set_same in Hq. injection Hq as <-.
        discriminate.
      + now rewrite (streams_set_present id _ p streams Hp). }
  split.
  { intros H. unfold start_detection, stop_detection. now rewrite H. }
  intros id' Hne. unfold start_detection, stop_detection.
  destruct (streams_get id streams) as [p | ]; simpl; [ | auto ].
  split; apply streams_get_set_other; congruence.
Qed.

Lemma active_streams_follow_start_and_stop_witness :
  let streams :=
    [ ("a", processor_with_queue "a" []); ("b", processor_with_queue "b" []) ] in
  In "b" (get_active_streams (snd (start_detection 5 "b" streams)))
  /\ ~ In "b" (get_active_streams (snd (stop_detection "b" streams))).
Proof.
  intros streams.
  destruct (active_streams_follow_start_and_stop nat 5 "b" streams)
    as (_ & H & _).
  - repeat constructor; simpl; intuition discriminate.
  - destruct (H (processor_with_queue "b" []) eq_refl) as (_ & _ & H1 & H2).
    split; assumption.
Defined.

(** X9. The restart of the active streams after a settings update, for a
    registry with one entry per id: every stream that was running is
    stopped and started again, so it runs with an empty buffer and zeroed
    counters and keeps its undrained results; every stream that was not
    running is left exactly as it was. *)
Theorem restart_resets_exactly_the_running_streams :
  forall (Frame : Type) (now : Q) (id : string) (streams : Streams Frame)
         (p : RTSPProcessor Frame),
    List.NoDup (map fst streams) ->
    streams_get id streams = Some p ->
    streams_get id (restart_active_streams now streams)
    = Some (if is_running p then start now (stop p) else p)
    /\ (is_running p = true ->
        exists q,
          streams_get id (restart_active_streams now streams) = Some q
          /\ is_running q = true /\ frame_buffer q = []
          /\ total_frames q = 0%Z /\ detection_count q = 0%Z
          /\ results_queue q = results_queue p).
Proof.
  intros Frame now id streams p Hnd Hp.
  assert (streams_get id (restart_active_streams now streams)
          = Some (if is_running p then start now (stop p) else p)) as E.
  { unfold restart_active_streams.
    rewrite (restart_many now _ id p streams Hp). f_equal.
    destruct (existsb _ (get_active_streams streams)) eqn:X.
    - apply existsb_exists in X. destruct X as (id0 & Hin & Heq).
      apply String.eqb_eq in Heq. subst id0.
      apply active_streams_iff in Hin; [ | exact Hnd ].
      destruct Hin as (q & Hq & Hrun). rewrite Hp in Hq.
      injection Hq as <-. now rewrite Hrun.
    - destruct (is_running p) eqn:R; [ | reflexivity ].
      exfalso.
      assert (In id (get_active_streams streams)) as Hin
        by (apply active_streams_iff; [ exact Hnd | now exists p ]).
      assert (existsb (fun id0 => String.eqb id0 id)
                (get_active_streams streams) = true) as Y.
      { apply existsb_exists. exists id. split; [ exact Hin | ].
        apply String.eqb_refl. }
      congruence. }
  split; [ exact E | ].
  intros R. rewrite R in E. eexists. split; [ exact E | ].
  repeat split.
Qed.

Lemma restart_resets_exactly_the_running_streams_witness :
  let streams := [("a", start 1 (processor_with_queue "a" [result_at "a" 1]))] in
  streams_get "a" (restart_active_streams 9 streams)
  = Some (start 9 (stop (start 1 (processor_with_queue "a" [result_at "a" 1])))).
Proof.
  intros streams.
  apply (restart_resets_exactly_the_running_streams nat 9 "a" streams
           (start 1 (processor_with_queue "a" [result_at "a" 1]))).
  - repeat constructor; simpl; intuition discriminate.
  - reflexivity.
Defined.

(** ** Draining again, and the detections endpoint *)

Lemma firstn_then_more {A : Type} (a b : nat) (l : list A) :
  firstn a l ++ firstn b (skipn a l) = firstn (a + b) l.
Proof.
  revert l. induction a as [ | a IH ]; intros l; simpl.
  - reflexivity.
  - destruct l as [ | x l ]; simpl.
    + now rewrite firstn_nil.
    + now rewrite IH.
Qed.

Lemma drain_repeatedly_spec {Frame : Type} (n : nat) :
  forall p : RTSPProcessor Frame,
    fst (drain_repeatedly n p) = firstn (10 * n) (results_queue p)
    /\ results_queue (snd (drain_repeatedly n p))
       = skipn (10 * n) (results_queue p).
Proof.
  induction n as [ | n IH ]; intros p.
  - simpl. split; reflexivity.
  - cbn [drain_repeatedly]. rewrite get_latest_results_spec.
    destruct (IH (set_results_queue (skipn 10 (results_queue p)) p))
      as [Hf Hs].
    destruct (drain_repeatedly n _) as [more p''].
    cbn [fst snd results_queue set_results_queue] in *.
    rewrite Hf, Hs. replace (10 * S n)%nat with (10 + 10 * n)%nat by lia.
    split.
    + apply firstn_then_more.
    + rewrite skipn_skipn. f_equal. lia.
Qed.

(** X10. Draining one processor [n] times in a row hands over the first
    10 n results of its queue, in queue order, each once, and keeps the
    rest: what was handed over followed by what is still queued is the
    original queue. Once 10 n reaches the queue length everything has
    been handed over and the queue is empty. *)
Theorem repeated_drains_deliver_the_queue_in_order :
  forall (Frame : Type) (n : nat) (p : RTSPProcessor Frame),
    let out := drain_repeatedly n p in
    fst out = firstn (10 * n) (results_queue p)
    /\ fst out ++ results_queue (snd out) = results_queue p
    /\ ((length (results_queue p) <= 10 * n)%nat ->
        fst out = results_queue p /\ results_queue (snd out) = []).
Proof.
  intros Frame n p out. subst out.
  destruct (drain_repeatedly_spec n p) as [Hf Hs]. rewrite Hf, Hs.
  split; [ reflexivity | ]. split; [ apply firstn_skipn | ].
  intros H. split; [ now apply firstn_all2 | now apply skipn_all2 ].
Qed.

Lemma repeated_drains_deliver_the_queue_in_order_witness :
  let queue :=
    map (result_at "cam") [1; 2; 3; 4; 5; 6; 7; 8; 9; 10; 11; 12]%Z in
  fst (drain_repeatedly 2 (processor_with_queue "cam" queue)) = queue
  /\ results_queue (snd (drain_repeatedly 2 (processor_with_queue "cam" queue)))
     = [].
Proof.
  intros queue.
  apply (repeated_drains_deliver_the_queue_in_order nat 2
           (processor_with_queue "cam" queue)).
  simpl. lia.
Defined.

Lemma firstn_newest_first (e : nat) (l : list DetectionResult) :
  StronglySorted newer_or_equal l ->
  StronglySorted newer_or_equal (firstn e l).
Proof.
  intros Hs. revert e. induction Hs as [ | r l Hs IH Hall ]; intros e.
  - rewrite firstn_nil. constructor.
  - destruct e as [ | e ]; simpl; [ constructor | ].
    constructor; [ apply IH | ].
    rewrite List.Forall_forall in Hall |- *.
    intros x Hx. apply Hall. rewrite <- (firstn_skipn e l).
    apply in_or_app. now left.
Qed.

(** X11. GET /api/detections drains the queues like any other call of
    [get_latest_detections], whatever the limit: the registry it leaves
    is the drained one. It returns a prefix of the drained results,
    newest first, of at most [limit] results for a non-negative limit;
    the drained results beyond the prefix are neither returned nor
    queued any more. *)
Theorem detections_endpoint_drains_whatever_the_limit :
  forall (Frame : Type) (limit : Z) (streams : Streams Frame),
    let out := get_detections limit streams in
    snd out = snd (get_latest_detections streams)
    /\ snd out = map kept streams
    /\ (exists dropped,
          fst (get_latest_detections streams) = fst out ++ dropped)
    /\ StronglySorted newer_or_equal (fst out)
    /\ ((0 <= limit)%Z ->
        fst out = firstn (Z.to_nat limit) (fst (get_latest_detections streams))
        /\ (Z.of_nat (length (fst out)) <= limit)%Z).
Proof.
  intros Frame limit streams out. subst out. unfold get_detections.
  assert (snd (get_latest_detections streams) = map kept streams) as Hk.
  { unfold get_latest_detections. now rewrite drain_streams_spec. }
  assert (StronglySorted newer_or_equal (fst (get_latest_detections streams)))
    as Hs.
  { unfold get_latest_detections. rewrite drain_streams_spec. simpl.
    apply sort_by_timestamp_desc_sorted. }
  destruct (get_latest_detections streams) as [detections streams'].
  simpl in *. split; [ reflexivity | ]. split; [ exact Hk | ].
  unfold py_slice_to.
  remember (Z.to_nat
              (if (limit <? 0)%Z
               then Z.max 0 (Z.of_nat (length detections) + limit)
               else Z.min limit (Z.of_nat (length detections)))) as e eqn:He.
  split.
  { exists (skipn e detections). symmetry. apply firstn_skipn. }
  split; [ now apply firstn_newest_first | ].
  intros Hlim. subst e.
  destruct (limit <? 0)%Z eqn:N; [ apply Z.ltb_lt in N; lia | ].
  split.
  - destruct (Z.le_gt_cases limit (Z.of_nat (length detections))).
    + now rewrite Z.min_l by assumption.
    + rewrite Z.min_r by lia. rewrite Nat2Z.id.
      rewrite firstn_all. symmetry. apply firstn_all2. lia.
  - rewrite length_firstn. lia.
Qed.

Lemma detections_endpoint_drains_whatever_the_limit_witness :
  let streams :=
    [("cam", processor_with_queue "cam"
               [result_at "cam" 1; result_at "cam" 2; result_at "cam" 3])] in
  fst (get_detections 1 streams) = [result_at "cam" 3]
  /\ option_map results_queue (streams_get "cam" (snd (get_detections 1 streams)))
     = Some [].
Proof.
  intros streams. split.
  - destruct (detections_endpoint_drains_whatever_the_limit nat 1 streams)
      as (_ & _ & _ & _ & H).
    destruct H as [H _]; [ lia | ]. rewrite H. reflexivity.
  - reflexivity.
Defined.

(** ** The sort of the drained results *)

Lemma at_time_cons (t : Q) (r : DetectionResult) (l : list DetectionResult) :
  at_time t (r :: l)
  = if Qeq_bool (timestamp r) t then r :: at_time t l else at_time t l.
Proof. reflexivity. Qed.

Lemma insert_desc_at_time (t : Q) (r : DetectionResult)
    (l : list DetectionResult) :
  at_time t (insert_desc r l) = at_time t (r :: l).
Proof.
  induction l as [ | r' l IH ]; [ reflexivity | ].
  cbn [insert_desc].
  destruct (Qltb (timestamp r) (timestamp r')) eqn:E; [ | reflexivity ].
  apply Qltb_lt in E.
  rewrite (at_time_cons t r'), IH, !at_time_cons.
  destruct (Qeq_bool (timestamp r) t) eqn:Er; [ | reflexivity ].
  destruct (Qeq_bool (timestamp r') t) eqn:Er'; [ | reflexivity ].
  apply Qeq_bool_iff in Er, Er'. exfalso.
  rewrite Er, Er' in E. revert E. apply Qlt_irrefl.
Qed.

(** X12. The sort of the drained results is stable: the results that
    carry one and the same timestamp come out in the order they went in,
    so results of equal time keep the registry and queue order. *)
Theorem sort_by_timestamp_is_stable :
  forall (t : Q) (l : list DetectionResult),
    at_time t (sort_by_timestamp_desc l) = at_time t l.
Proof.
  intros t l. induction l as [ | r l IH ]; [ reflexivity | ].
  cbn [sort_by_timestamp_desc fold_right].
  fold (sort_by_timestamp_desc l).
  rewrite insert_desc_at_time, !at_time_cons, IH. reflexivity.
Qed.

Lemma insert_desc_front (r : DetectionResult) (l : list DetectionResult) :
  Forall (newer_or_equal r) l -> insert_desc r l = r :: l.
Proof.
  intros H. destruct H as [ | r' l Hr Hrest ]; [ reflexivity | ].
  cbn [insert_desc].
  destruct (Qltb (timestamp r) (timestamp r')) eqn:E; [ | reflexivity ].
  apply Qltb_lt in E. exfalso. exact (Qle_not_lt _ _ Hr E).
Qed.

Lemma sort_sorted_input (l : list DetectionResult) :
  StronglySorted newer_or_equal l -> sort_by_timestamp_desc l = l.
Proof.
  induction 1 as [ | r l Hs IH Hall ]; [ reflexivity | ].
  cbn [sort_by_timestamp_desc fold_right].
  fold (sort_by_timestamp_desc l). rewrite IH.
  now apply insert_desc_front.
Qed.

(** X13. A list that is already ordered newest first is returned by the
    sort unchanged; hence sorting twice is sorting once. *)
Theorem sort_by_timestamp_fixes_sorted_lists :
  forall l : list DetectionResult,
    sort_by_timestamp_desc (sort_by_timestamp_desc l)
    = sort_by_timestamp_desc l
    /\ (StronglySorted newer_or_equal l -> sort_by_timestamp_desc l = l).
Proof.
  intros l. split; [ | apply sort_sorted_input ].
  apply sort_sorted_input, sort_by_timestamp_desc_sorted.
Qed.

Lemma sort_by_timestamp_fixes_sorted_lists_witness :
  sort_by_timestamp_desc [result_at "a" 3; result_at "b" 3; result_at "a" 1]
  = [result_at "a" 3; result_at "b" 3; result_at "a" 1].
Proof.
  apply (sort_by_timestamp_fixes_sorted_lists
           [result_at "a" 3; result_at "b" 3; result_at "a" 1]).
  repeat constructor; unfold newer_or_equal; simpl; discriminate.
Defined.

(** ** The two threads of a stream *)

Section StreamRuns.

Context {RawFrame Frame : Type}.
Variable normalize : RawFrame -> Frame.
Variable encode_thumbnail : Frame -> string.
Variable triton : list Frame -> option float32.
Implicit Types (p : RTSPProcessor Frame) (settings : SystemSettings).

(** Everything one detection iteration does to the processor. *)
Lemma detection_iteration_effect settings (now : Q) p :
  let out := detection_iteration encode_thumbnail triton settings now p in
  frame_buffer (fst out) = frame_buffer p
  /\ p_stream_id (fst out) = p_stream_id p
  /\ fps (fst out) = fps p /\ total_frames (fst out) = total_frames p
  /\ is_running (fst out) = is_running p
  /\ ((((Z.of_nat (length (frame_buffer p)) < buffer_size settings)%Z
        \/ frame_buffer p = [])
       /\ snd out = []
       /\ results_queue (fst out) = results_queue p
       /\ detection_count (fst out) = detection_count p
       /\ last_detection (fst out) = last_detection p)
      \/ ((buffer_size settings <= Z.of_nat (length (frame_buffer p)))%Z
          /\ frame_buffer p <> []
          /\ snd out = [frame_buffer p]
          /\ exists r,
              results_queue (fst out) = results_queue p ++ [r]
              /\ stream_id r = p_stream_id p /\ timestamp r = now
              /\ (is_violence r, confidence r)
                 = predict settings (triton (frame_buffer p))
              /\ detection_count (fst out)
                 = (detection_count p + if is_violence r then 1 else 0)%Z
              /\ last_detection (fst out)
                 = if is_violence r then Some r else last_detection p)).
Proof.
  intros out. subst out. unfold detection_iteration, detect_violence.
  destruct (Z.of_nat (length (frame_buffer p)) >=? buffer_size settings)%Z
    eqn:G.
  2:{ assert (Z.of_nat (length (frame_buffer p)) < buffer_size settings)%Z
        by (destruct (Z.geb_spec (Z.of_nat (length (frame_buffer p)))
                        (buffer_size settings)); [ discriminate | lia ]).
      simpl. do 5 (split; [ reflexivity | ]). left. auto. }
  apply Z.geb_le in G.
  destruct (Z.of_nat (length (frame_buffer p)) <? buffer_size settings)%Z
    eqn:L; [ apply Z.ltb_lt in L; lia | ].
  destruct (rev (frame_buffer p)) as [ | last_frame others ] eqn:R.
  { apply rev_nil_inv in R. simpl.
    do 5 (split; [ reflexivity | ]). left. auto. }
  assert (frame_buffer p <> []) as Hne
    by (intros E; rewrite E in R; discriminate).
  destruct (predict settings (triton (frame_buffer p))) as [violence conf].
  destruct violence; simpl; (do 5 (split; [ reflexivity | ])); right;
    (split; [ exact G | ]); (split; [ exact Hne | ]);
    (split; [ reflexivity | ]); eexists;
    (split; [ reflexivity | ]); simpl; repeat split; lia.
Qed.

Lemma last_cons_default {A : Type} (x d : A) (l : list A) :
  List.last (x :: l) d = List.last l x.
Proof.
  revert x d. induction l as [ | y l IH ]; intros x d; [ reflexivity | ].
  change (List.last (x :: y :: l) d) with (List.last (y :: l) d).
  rewrite !IH. reflexivity.
Qed.

Lemma violent_count_app (l1 l2 : list DetectionResult) :
  violent_count (l1 ++ l2) = (violent_count l1 + violent_count l2)%Z.
Proof.
  unfold violent_count. rewrite List.filter_app, length_app. lia.
Qed.

Lemma run_stream_ops_bookkeeping settings (ops : list (StreamOp RawFrame)) :
  forall p,
    let out :=
      run_stream_ops normalize encode_thumbnail triton settings ops p in
    p_stream_id (fst out) = p_stream_id p
    /\ exists new,
        results_queue (fst out) = results_queue p ++ new
        /\ Forall2
             (fun r window =>
                stream_id r = p_stream_id p
                /\ (is_violence r, confidence r)
                   = predict settings (triton window))
             new (snd out)
        /\ detection_count (fst out)
           = (detection_count p + violent_count new)%Z
        /\ last_detection (fst out)
           = List.last (map Some (List.filter is_violence new))
               (last_detection p).
Proof.
  induction ops as [ | [frame | now] ops IH ]; intros p out; subst out.
  - simpl. split; [ reflexivity | ]. exists []. rewrite app_nil_r.
    repeat split. constructor. unfold violent_count. simpl. lia.
  - cbn [run_stream_ops].
    destruct (IH (process_frame normalize settings frame p))
      as (Hid & new & Hq & Hall & Hcount & Hlast).
    split; [ exact Hid | ]. exists new. auto.
  - cbn [run_stream_ops].
    pose proof (detection_iteration_effect settings now p)
      as (_ & Hid1 & _ & _ & _ & Hcase).
    destruct (detection_iteration encode_thumbnail triton settings now p)
      as [p1 calls1]. cbn [fst snd] in Hid1, Hcase.
    destruct (IH p1) as (Hid & new & Hq & Hall & Hcount & Hlast).
    destruct (run_stream_ops normalize encode_thumbnail triton settings ops p1)
      as [p2 calls2]. cbn [fst snd] in *.
    split; [ congruence | ].
    destruct Hcase as [ (_ & -> & Hq1 & Hc1 & Hl1)
                      | (_ & _ & -> & r & Hq1 & Hr1 & _ & Hr2 & Hc1 & Hl1) ].
    + exists new. rewrite Hq, Hq1, Hcount, Hc1, Hlast, Hl1. simpl.
      repeat split. rewrite <- Hid1. exact Hall.
    + exists (r :: new). rewrite Hq, Hq1, <- app_assoc. simpl.
      split; [ reflexivity | ]. split.
      { constructor; [ split; assumption | ]. rewrite <- Hid1. exact Hall. }
      split.
      * rewrite Hcount, Hc1. unfold violent_count. cbn [List.filter].
        destruct (is_violence r); cbn [length]; lia.
      * rewrite Hlast, Hl1. cbn [List.filter].
        destruct (is_violence r); [ | reflexivity ].
        cbn [map]. symmetry. apply last_cons_default.
Qed.

Lemma run_stream_ops_windows settings (ops : list (StreamOp RawFrame)) :
  (1 <= buffer_size settings)%Z ->
  forall p,
    (Z.of_nat (length (frame_buffer p)) <= buffer_size settings)%Z ->
    let out :=
      run_stream_ops normalize encode_thumbnail triton settings ops p in
    (Z.of_nat (length (frame_buffer (fst out))) <= buffer_size settings)%Z
    /\ Forall (fun window =>
                 Z.of_nat (length window) = buffer_size settings)
         (snd out).
Proof.
  intros Hcap. induction ops as [ | [frame | now] ops IH ]; intros p Hlen out;
    subst out.
  - simpl. split; [ exact Hlen | constructor ].
  - cbn [run_stream_ops]. apply IH.
    rewrite process_frame_buffer, push_frame_most_recent by exact Hcap.
    rewrite most_recent_length. lia.
  - cbn [run_stream_ops].
    pose proof (detection_iteration_effect settings now p)
      as (Hbuf & _ & _ & _ & _ & Hcase).
    destruct (detection_iteration encode_thumbnail triton settings now p)
      as [p1 calls1]. cbn [fst snd] in Hbuf, Hcase.
    assert (Z.of_nat (length (frame_buffer p1)) <= buffer_size settings)%Z
      as Hlen1 by (rewrite Hbuf; exact Hlen).
    destruct (IH p1 Hlen1) as [Hb Hw].
    destruct (run_stream_ops normalize encode_thumbnail triton settings ops p1)
      as [p2 calls2]. cbn [fst snd] in *.
    split; [ exact Hb | ].
    destruct Hcase as [ (_ & -> & _) | (G & _ & -> & _) ]; simpl.
    + exact Hw.
    + constructor; [ lia | exact Hw ].
Qed.

Lemma run_stream_ops_detect_only settings (times : list Q) :
  forall p,
    (buffer_size settings <= Z.of_nat (length (frame_buffer p)))%Z ->
    frame_buffer p <> [] ->
    let out :=
      run_stream_ops normalize encode_thumbnail triton settings
        (map Detect times) p in
    snd out = repeat (frame_buffer p) (length times)
    /\ frame_buffer (fst out) = frame_buffer p
    /\ length (results_queue (fst out))
       = (length (results_queue p) + length times)%nat.
Proof.
  induction times as [ | now times IH ]; intros p Hfull Hne out; subst out.
  - simpl. repeat split. lia.
  - cbn [map run_stream_ops].
    pose proof (detection_iteration_effect settings now p)
      as (Hbuf & _ & _ & _ & _ & Hcase).
    destruct (detection_iteration encode_thumbnail triton settings now p)
      as [p1 calls1]. cbn [fst snd] in Hbuf, Hcase.
    assert (buffer_size settings <= Z.of_nat (length (frame_buffer p1)))%Z
      as Hfull1 by (rewrite Hbuf; exact Hfull).
    assert (frame_buffer p1 <> []) as Hne1 by (rewrite Hbuf; exact Hne).
    destruct (IH p1 Hfull1 Hne1) as (Hcalls & Hb & Hq).
    destruct (run_stream_ops normalize encode_thumbnail triton settings
                (map Detect times) p1) as [p2 calls2]. cbn [fst snd] in *.
    destruct Hcase as [ ([L | E] & _) | (_ & _ & -> & r & Hq1 & _) ].
    + lia.
    + contradiction.
    + rewrite Hcalls, Hb, Hbuf, Hq, Hq1, length_app. simpl.
      repeat split. lia.
Qed.

End StreamRuns.

(** X14. Over any interleaving of processed frames and detection
    iterations of one stream, under constant settings: the result queue
    grows by exactly one result per inference call, in order; each result
    carries the stream's id and is the prediction for the window that was
    sent, a positive flag meaning a confidence strictly above the
    threshold; [detection_count] grows by the number of positive results,
    and [last_detection] is the latest positive result (or what it was
    when there is none), never a negative one. *)
Theorem detection_results_are_counted_and_attributed :
  forall (RawFrame Frame : Type) (normalize : RawFrame -> Frame)
         (encode_thumbnail : Frame -> string)
         (triton : list Frame -> option float32) (settings : SystemSettings)
         (ops : list (StreamOp RawFrame)) (p : RTSPProcessor Frame),
    let out :=
      run_stream_ops normalize encode_thumbnail triton settings ops p in
    exists new,
      results_queue (fst out) = results_queue p ++ new
      /\ length new = length (snd out)
      /\ Forall2
           (fun r window =>
              stream_id r = p_stream_id p
              /\ (is_violence r, confidence r)
                 = predict settings (triton window)
              /\ (is_violence r = true ->
                  (confidence_threshold settings < confidence r)%Q))
           new (snd out)
      /\ detection_count (fst out)
         = (detection_count p + violent_count new)%Z
      /\ last_detection (fst out)
         = List.last (map Some (List.filter is_violence new))
             (last_detection p).
Proof.
  intros RawFrame Frame normalize encode_thumbnail triton settings ops p out.
  destruct (run_stream_ops_bookkeeping normalize encode_thumbnail triton
              settings ops p) as (_ & new & Hq & Hall & Hcount & Hlast).
  fold out in Hq, Hall, Hcount, Hlast.
  exists new. split; [ exact Hq | ].
  split; [ eapply Forall2_length; exact Hall | ].
  split; [ | split; assumption ].
  clear Hq Hcount Hlast.
  induction Hall as [ | r w new ws [Hid Hp] Hall IH ]; constructor;
    [ | exact IH ].
  split; [ exact Hid | ]. split; [ exact Hp | ].
  intros Hv.
  pose proof (predict_flag_sound settings (triton w)) as S.
  rewrite <- Hp in S. simpl in S. now apply S.
Qed.

(** X15. With a constant capacity of at least 1 and a buffer that starts
    within the capacity (empty after [start]), every window sent to
    inference, over any interleaving of processed frames and detection
    iterations, holds exactly [capacity] frames, and the buffer never
    exceeds the capacity. *)
Theorem inference_windows_hold_capacity_frames :
  forall (RawFrame Frame : Type) (normalize : RawFrame -> Frame)
         (encode_thumbnail : Frame -> string)
         (triton : list Frame -> option float32) (settings : SystemSettings)
         (ops : list (StreamOp RawFrame)) (p : RTSPProcessor Frame),
    (1 <= buffer_size settings)%Z ->
    (Z.of_nat (length (frame_buffer p)) <= buffer_size settings)%Z ->
    let out :=
      run_stream_ops normalize encode_thumbnail triton settings ops p in
    Forall (fun window => Z.of_nat (length window) = buffer_size settings)
      (snd out)
    /\ (Z.of_nat (length (frame_buffer (fst out))) <= buffer_size settings)%Z.
Proof.
  intros RawFrame Frame normalize encode_thumbnail triton settings ops p
    Hcap Hlen out.
  destruct (run_stream_ops_windows normalize encode_thumbnail triton settings
              ops Hcap p Hlen) as [Hb Hw].
  split; assumption.
Qed.

Lemma inference_windows_hold_capacity_frames_witness :
  let two := {| frame_skip := 1; confidence_threshold := 0.7;
                buffer_size := 2 |} in
  let ops := [ Capture 1%nat; Detect 1; Capture 2%nat; Detect 2;
               Capture 3%nat; Detect 3 ] in
  let out := run_stream_ops (fun x : nat => x) (fun _ => "jpg")
               (fun _ => Some float32_0_9) two ops
               (new_processor 0 "cam" "rtsp://cam" "") in
  Forall (fun window => Z.of_nat (length window) = 2%Z) (snd out)
  /\ snd out = [[1; 2]; [2; 3]]%nat.
Proof.
  intros two ops out. split; [ | reflexivity ].
  apply (inference_windows_hold_capacity_frames nat nat (fun x => x)
           (fun _ => "jpg") (fun _ => Some float32_0_9) two ops
           (new_processor 0 "cam" "rtsp://cam" "")).
  - simpl. lia.
  - simpl. lia.
Defined.

(** X16. Detection does not consume the buffer: detection iterations
    that run back to back on a full, non-empty buffer, with no frame
    processed in between, each send the same window to inference and
    each queue a result. *)
Theorem detection_repeats_on_an_unchanged_window :
  forall (RawFrame Frame : Type) (normalize : RawFrame -> Frame)
         (encode_thumbnail : Frame -> string)
         (triton : list Frame -> option float32) (settings : SystemSettings)
         (times : list Q) (p : RTSPProcessor Frame),
    (buffer_size settings <= Z.of_nat (length (frame_buffer p)))%Z ->
    frame_buffer p <> [] ->
    let out :=
      run_stream_ops normalize encode_thumbnail triton settings
        (map (Detect (RawFrame := RawFrame)) times) p in
    snd out = repeat (frame_buffer p) (length times)
    /\ frame_buffer (fst out) = frame_buffer p
    /\ length (results_queue (fst out))
       = (length (results_queue p) + length times)%nat.
Proof.
  intros RawFrame Frame normalize encode_thumbnail triton settings times p
    Hfull Hne out.
  exact (run_stream_ops_detect_only normalize encode_thumbnail triton settings
           times p Hfull Hne).
Qed.

Lemma detection_repeats_on_an_unchanged_window_witness :
  let two := {| frame_skip := 1; confidence_threshold := 0.7;
                buffer_size := 2 |} in
  let p := process_frames (fun x : nat => x) two [1; 2]%nat
             (new_processor 0 "cam" "rtsp://cam" "") in
  snd (run_stream_ops (fun x : nat => x) (fun _ => "jpg")
         (fun _ => Some float32_0_9) two
         (map (Detect (RawFrame := nat)) [10; 11; 12]%Q) p)
  = [[1; 2]; [1; 2]; [1; 2]]%nat.
Proof.
  intros two p.
  apply (detection_repeats_on_an_unchanged_window nat nat (fun x => x)
           (fun _ => "jpg") (fun _ => Some float32_0_9) two [10; 11; 12]%Q p).
  - simpl. lia.
  - discriminate.
Defined.

(** ** The capture loop *)

Section Capture.

Context {RawFrame Frame : Type}.
Variable normalize : RawFrame -> Frame.
Implicit Types (p : RTSPProcessor Frame) (settings : SystemSettings).

Lemma update_fps_returns (current_time last_time fps0 : Q) :
  exists f, update_fps current_time last_time fps0 = inr f.
Proof.
  unfold update_fps, py_truediv.
  destruct (Qgtb (current_time - last_time) 0) eqn:E; [ | now eexists ].
  apply Qgtb_gt in E.
  destruct (Qeq_bool (current_time - last_time) 0) eqn:Z0; [ | now eexists ].
  apply Qeq_bool_iff in Z0. rewrite Z0 in E.
  exfalso. revert E. apply Qlt_irrefl.
Qed.

Lemma process_frames_buffer_ext settings (frames : list RawFrame) :
  forall p1 p2,
    frame_buffer p1 = frame_buffer p2 ->
    frame_buffer (process_frames normalize settings frames p1)
    = frame_buffer (process_frames normalize settings frames p2).
Proof.
  unfold process_frames.
  induction frames as [ | f frames IH ]; intros p1 p2 H; simpl.
  - exact H.
  - apply IH. rewrite !process_frame_buffer. now rewrite H.
Qed.

(** One iteration with a non-zero frame skip. *)
Lemma capture_iteration_ok settings (frame : RawFrame)
    (current_time last_time : Q) p :
  frame_skip settings <> 0%Z ->
  exists p',
    capture_iteration normalize settings frame current_time last_time p
    = inr (p', current_time)
    /\ total_frames p' = (total_frames p + 1)%Z
    /\ is_running p' = is_running p
    /\ results_queue p' = results_queue p
    /\ frame_buffer p'
       = if (total_frames p mod frame_skip settings =? 0)%Z
         then frame_buffer (process_frame normalize settings frame p)
         else frame_buffer p.
Proof.
  intros Hskip. unfold capture_iteration, py_mod.
  destruct (update_fps_returns current_time last_time (fps p)) as [f ->].
  destruct (Z.eqb_spec (frame_skip settings) 0); [ contradiction | ].
  eexists. split; [ reflexivity | ].
  destruct (total_frames p mod frame_skip settings =? 0)%Z; repeat split.
Qed.

Lemma capture_frames_all_read settings (timed : list (RawFrame * Q)) :
  frame_skip settings <> 0%Z ->
  forall (last_time : Q) p,
    is_running p = true ->
    let p' :=
      capture_frames normalize settings
        (map (fun ft => (Some (fst ft), snd ft)) timed) last_time p in
    total_frames p' = (total_frames p + Z.of_nat (length timed))%Z
    /\ frame_buffer p'
       = frame_buffer
           (process_frames normalize settings
              (decimate (frame_skip settings) (total_frames p)
                 (map fst timed)) p)
    /\ is_running p' = true
    /\ results_queue p' = results_queue p.
Proof.
  intros Hskip. induction timed as [ | [frame t] timed IH ];
    intros last_time p Hrun p'; subst p'.
  - simpl. repeat split; [ lia | exact Hrun ].
  - cbn [map capture_frames fst snd]. rewrite Hrun. cbn [negb].
    destruct (capture_iteration_ok settings frame t last_time p Hskip)
      as (p1 & -> & Ht & Hr & Hq & Hb).
    assert (is_running p1 = true) as Hrun1 by congruence.
    destruct (IH t p1 Hrun1) as (Ht' & Hb' & Hr' & Hq').
    rewrite Ht', Hb', Hr', Hq', Ht, Hq.
    split; [ cbn [length]; lia | ].
    split; [ | split; reflexivity ].
    cbn [decimate].
    destruct (total_frames p mod frame_skip settings =? 0)%Z.
    + change (process_frames normalize settings
                (frame :: decimate (frame_skip settings) (total_frames p + 1)
                            (map fst timed)) p)
        with (process_frames normalize settings
                (decimate (frame_skip settings) (total_frames p + 1)
                   (map fst timed))
                (process_frame normalize settings frame p)).
      now apply process_frames_buffer_ext.
    + now apply process_frames_buffer_ext.
Qed.

Lemma capture_frames_read_failure settings (reads1 : list (option RawFrame * Q))
    (t : Q) (reads2 : list (option RawFrame * Q)) :
  forall (last_time : Q) p,
    capture_frames normalize settings (reads1 ++ (None, t) :: reads2)
      last_time p
    = capture_frames normalize settings reads1 last_time p.
Proof.
  induction reads1 as [ | [read t1] reads1 IH ]; intros last_time p.
  - simpl. destruct (negb (is_running p)); reflexivity.
  - cbn [app capture_frames].
    destruct (negb (is_running p)); [ reflexivity | ].
    destruct read as [frame | ]; [ | reflexivity ].
    destruct (capture_iteration normalize settings frame t1 last_time p)
      as [e | [p1 last1]]; [ reflexivity | apply IH ].
Qed.

End Capture.

(** X17. How the capture loop ends. When the connection fails,
    [run_detection_loop] returns without touching the processor, so the
    stream keeps the [is_running] flag that [start] raised. Once
    connected, the loop always ends with [is_running] false. A failed
    read ends the loop at once: the reads after it are never taken. *)
Theorem capture_loop_exit_paths :
  forall (RawFrame Frame : Type) (normalize : RawFrame -> Frame)
         (settings : SystemSettings) (now last_time t : Q)
         (reads reads' : list (option RawFrame * Q))
         (p : RTSPProcessor Frame),
    is_running
      (run_detection_loop normalize settings false reads last_time
         (start now (stop p))) = true
    /\ run_detection_loop normalize settings false reads last_time p = p
    /\ is_running
         (run_detection_loop normalize settings true reads last_time p)
       = false
    /\ run_detection_loop normalize settings true
         (reads ++ (None, t) :: reads') last_time p
       = run_detection_loop normalize settings true reads last_time p.
Proof.
  intros RawFrame Frame normalize settings now last_time t reads reads' p.
  repeat split.
  unfold run_detection_loop. simpl.
  now rewrite capture_frames_read_failure.
Qed.

(** X18. With a non-zero frame skip, a running processor and reads that
    all succeed, the capture loop counts every frame read and processes
    exactly the frames at which the counter is a multiple of the frame
    skip: the buffer is the one obtained by pushing those frames, in
    order; the result queue is not touched. *)
Theorem capture_loop_processes_every_nth_frame :
  forall (RawFrame Frame : Type) (normalize : RawFrame -> Frame)
         (settings : SystemSettings) (timed : list (RawFrame * Q))
         (last_time : Q) (p : RTSPProcessor Frame),
    frame_skip settings <> 0%Z ->
    is_running p = true ->
    let p' :=
      capture_frames normalize settings
        (map (fun ft => (Some (fst ft), snd ft)) timed) last_time p in
    total_frames p' = (total_frames p + Z.of_nat (length timed))%Z
    /\ frame_buffer p'
       = frame_buffer
           (process_frames normalize settings
              (decimate (frame_skip settings) (total_frames p)
                 (map fst timed)) p)
    /\ is_running p' = true
    /\ results_queue p' = results_queue p.
Proof.
  intros RawFrame Frame normalize settings timed last_time p Hskip Hrun.
  exact (capture_frames_all_read normalize settings timed Hskip last_time p
           Hrun).
Qed.

Lemma capture_loop_processes_every_nth_frame_witness :
  let p := start 0 (new_processor 0 "cam" "rtsp://cam" "") in
  let p' :=
    capture_frames (fun x : nat => x) default_settings
      (map (fun ft => (Some (fst ft), snd ft))
         [(10%nat, 1%Q); (11%nat, 2%Q); (12%nat, 3%Q); (13%nat, 4%Q);
          (14%nat, 5%Q); (15%nat, 6%Q); (16%nat, 7%Q)])
      0 p in
  total_frames p' = 7%Z /\ frame_buffer p' = [10; 13; 16]%nat.
Proof.
  intros p p'.
  destruct (capture_loop_processes_every_nth_frame nat nat (fun x => x)
              default_settings
              [(10%nat, 1%Q); (11%nat, 2%Q); (12%nat, 3%Q); (13%nat, 4%Q);
               (14%nat, 5%Q); (15%nat, 6%Q); (16%nat, 7%Q)] 0 p)
    as (Ht & Hb & _).
  - simpl. lia.
  - reflexivity.
  - split; [ exact Ht | exact Hb ].
Defined.

(** X19. With the frame skip 0 the frame-skip test divides by zero on the
    first frame read: the loop ends there, with no frame counted or
    processed, whatever reads would follow, and [is_running] false. *)
Theorem capture_loop_stops_at_frame_skip_zero :
  forall (RawFrame Frame : Type) (normalize : RawFrame -> Frame)
         (settings : SystemSettings) (frame : RawFrame) (t last_time : Q)
         (reads : list (option RawFrame * Q)) (p : RTSPProcessor Frame),
    frame_skip settings = 0%Z ->
    is_running p = true ->
    let p' :=
      run_detection_loop normalize settings true ((Some frame, t) :: reads)
        last_time p in
    (exists f, capture_iteration normalize settings frame t last_time p
               = inl ZeroDivisionError
               /\ update_fps t last_time (fps p) = inr f /\ fps p' = f)
    /\ total_frames p' = total_frames p
    /\ frame_buffer p' = frame_buffer p
    /\ results_queue p' = results_queue p
    /\ is_running p' = false.
Proof.
  intros RawFrame Frame normalize settings frame t last_time reads p
    Hskip Hrun p'. subst p'.
  unfold run_detection_loop. cbn [negb capture_frames]. rewrite Hrun.
  cbn [negb]. unfold capture_iteration, py_mod. rewrite Hskip.
  destruct (update_fps_returns t last_time (fps p)) as [f Hf].
  rewrite Hf. simpl. split; [ | repeat split ].
  exists f. repeat split.
Qed.

Lemma capture_loop_stops_at_frame_skip_zero_witness :
  let zero := {| frame_skip := 0; confidence_threshold := 0.7;
                 buffer_size := 16 |} in
  let p := start 0 (new_processor 0 "cam" "rtsp://cam" "") in
  total_frames
    (run_detection_loop (fun x : nat => x) zero true
       [(Some 10%nat, 1%Q); (Some 11%nat, 2%Q)] 0 p) = 0%Z.
Proof.
  intros zero p.
  apply (capture_loop_stops_at_frame_skip_zero nat nat (fun x => x) zero
           10%nat 1 0 [(Some 11%nat, 2%Q)] p); reflexivity.
Defined.

(** ** The throttle: interval, closing, messages *)



(** X21. A detection without event ends the episode of its stream: the
    call returns [False], the stream is idle afterwards in both tables,
    and the final notification is scheduled exactly when an episode was
    open, with the duration [int(now - start_time)] and the episode's
    record; the other streams are not touched. Nothing of the closed
    episode is remembered: the next event of the stream, however soon,
    is answered [True] and opens a fresh episode. *)
Theorem non_event_ends_the_episode :
  forall (now now' : Q) (sid : string) (s : TelegramService),
    let out := should_send_notification now sid false s in
    let s' := snd (fst out) in
    fst (fst out) = false
    /\ violence_events s' !! sid = None
    /\ last_notification_time s' !! sid = None
    /\ snd out
       = match violence_events s !! sid with
         | Some ev =>
             [send_final_notification sid
                (py_int (now - ev_start_time ev)) ev]
         | None => []
         end
    /\ (forall sid', sid' <> sid ->
          violence_events s' !! sid' = violence_events s !! sid'
          /\ last_notification_time s' !! sid'
             = last_notification_time s !! sid')
    /\ (let again := should_send_notification now' sid true s' in
        fst (fst again) = true
        /\ violence_events (snd (fst again)) !! sid
           = Some (opening_event now')).
Proof.
  intros now now' sid s out s'. subst s' out.
  assert (violence_events (snd (fst (should_send_notification now sid false s)))
            !! sid = None) as Hidle.
  { unfold should_send_notification. simpl.
    destruct (violence_events s !! sid) eqn:L; simpl;
      [ apply lookup_delete_eq | exact L ]. }
  split.
  { unfold should_send_notification. simpl.
    destruct (violence_events s !! sid); reflexivity. }
  split; [ exact Hidle | ].
  split.
  { unfold should_send_notification. simpl.
    destruct (violence_events s !! sid); simpl; apply lookup_delete_eq. }
  split.
  { unfold should_send_notification. simpl.
    destruct (violence_events s !! sid); reflexivity. }
  split.
  { intros sid' Hne. unfold should_send_notification. simpl.
    destruct (violence_events s !! sid); simpl;
      rewrite ?lookup_delete_ne by congruence; split; reflexivity. }
  cbv zeta. rewrite (should_send_opens now' sid _ Hidle). simpl.
  split; [ reflexivity | apply lookup_insert_eq ].
Qed.

(** X22. Whenever [handle_detection] hands a message to the transport,
    the service is enabled and the detection is an event; the message
    carries the detection's stream, confidence and thumbnail and the
    data of the stream's open episode (number = notification count + 1,
    the episode's maximum confidence and its age), and its headline is
    "started" at count 0, "continues" at count 1 and "ongoing" beyond,
    never the fallback alert. The count is 0 when the stream was idle
    and one more than before when an episode was open. *)
Theorem sent_message_describes_the_open_episode :
  forall (now now_msg : Q) (d : DetectionResult) (s : TelegramService)
         (m : Message),
    fst (fst (handle_detection now now_msg d s)) = Some m ->
    let s' := snd (fst (handle_detection now now_msg d s)) in
    enabled s = true /\ is_violence d = true
    /\ message_stream m = stream_id d
    /\ message_confidence m = confidence d
    /\ message_photo m = frame_data d
    /\ message_type m <> ViolenceDetectionAlert
    /\ exists ev,
        violence_events s' !! stream_id d = Some ev
        /\ message_number m = Some (notification_count ev + 1)%Z
        /\ message_max_confidence m = Some (max_confidence ev)
        /\ message_duration m = Some (py_int (now_msg - ev_start_time ev))
        /\ message_type m
           = (if (notification_count ev =? 0)%Z then ViolenceDetectionStarted
              else if (notification_count ev =? 1)%Z then ViolenceContinues
              else ViolenceOngoing)
        /\ notification_count ev
           = match violence_events s !! stream_id d with
             | None => 0%Z
             | Some ev0 => (notification_count ev0 + 1)%Z
             end.
Proof.
  intros now now_msg d s m H s'. subst s'. revert H.
  unfold handle_detection.
  destruct (enabled s) eqn:Hen; [ | discriminate ]. simpl.
  set (s0 := set_current_detection_confidence (confidence d) s).
  destruct (is_violence d) eqn:Hv.
  2:{ unfold should_send_notification. simpl.
      destruct (violence_events s !! stream_id d); discriminate. }
  assert (violence_events s0 = violence_events s) as Hsame by reflexivity.
  destruct (violence_events s !! stream_id d) as [ev0 | ] eqn:L.
  - assert (violence_events s0 !! stream_id d = Some ev0) as L0
      by (rewrite Hsame; exact L).
    destruct (should_send_continues now (stream_id d) s0 ev0 L0)
      as (Hdec & _ & ev' & Hev' & _ & _ & _ & Hcount & _).
    destruct (should_send_notification now (stream_id d) true s0)
      as [[send s1] tasks]. cbn [fst snd] in Hdec, Hev', Hcount.
    destruct send; [ | discriminate ].
    rewrite <- Hdec in Hcount. simpl. rewrite Hev'.
    intros [= <-]. simpl.
    do 5 (split; [ reflexivity | ]).
    split.
    { destruct (notification_count ev' =? 0)%Z; [ discriminate | ].
      destruct (notification_count ev' =? 1)%Z; discriminate. }
    exists ev'. repeat split. exact Hcount.
  - assert (violence_events s0 !! stream_id d = None) as L0
      by (rewrite Hsame; exact L).
    rewrite (should_send_opens now (stream_id d) s0 L0). simpl.
    rewrite lookup_insert_eq. intros [= <-]. simpl.
    do 5 (split; [ reflexivity | ]).
    split; [ discriminate | ].
    eexists. split; [ reflexivity | ]. repeat split.
Qed.

Lemma sent_message_describes_the_open_episode_witness :
  let d := call_detection (event_call "cam" 7 0.9) in
  exists m,
    fst (fst (handle_detection 7 7 d enabled_service)) = Some m
    /\ message_type m <> ViolenceDetectionAlert
    /\ message_stream m = "cam".
Proof.
  intros d.
  destruct (fst (fst (handle_detection 7 7 d enabled_service)))
    as [m | ] eqn:E; [ | vm_compute in E; discriminate ].
  exists m. split; [ reflexivity | ].
  destruct (sent_message_describes_the_open_episode 7 7 d enabled_service m E)
    as (_ & _ & Hs & _ & _ & Ht & _).
  split; [ exact Ht | exact Hs ].
Defined.

(** ** A whole episode *)

Section EpisodeSummary.

Implicit Types (s : TelegramService) (sid : string) (c : Call).

Lemma handle_detection_keeps_enabled (now now_msg : Q) (d : DetectionResult) s :
  enabled (snd (fst (handle_detection now now_msg d s))) = enabled s.
Proof.
  destruct (enabled s) eqn:Hen.
  - destruct (handle_detection_enabled now now_msg d s Hen) as (-> & _).
    destruct (should_send_settings now (stream_id d) (is_violence d)
                (set_current_detection_confidence (confidence d) s))
      as (-> & _).
    exact Hen.
  - now rewrite handle_detection_disabled.
Qed.

(** One call to an enabled service, seen from the episode of [sid]. *)
Lemma enabled_step sid c s :
  enabled s = true ->
  (call_stream c = sid -> is_violence (call_detection c) = true) ->
  let out :=
    handle_detection (call_time c) (call_msg_time c) (call_detection c) s in
  let m := fst (fst out) in
  let s' := snd (fst out) in
  (call_stream c <> sid ->
   violence_events s' !! sid = violence_events s !! sid)
  /\ (call_stream c = sid ->
      match violence_events s !! sid with
      | None =>
          m <> None
          /\ violence_events s' !! sid = Some (opening_event (call_time c))
      | Some ev =>
          exists ev',
            violence_events s' !! sid = Some ev'
            /\ ev_start_time ev' = ev_start_time ev
            /\ max_confidence ev'
               = py_max (max_confidence ev) (confidence (call_detection c))
            /\ ((m <> None
                 /\ notification_count ev' = (notification_count ev + 1)%Z)
                \/ (m = None
                    /\ notification_count ev' = notification_count ev))
      end).
Proof.
  intros Hen Hev out m s'. subst m s' out.
  destruct (handle_detection_enabled (call_time c) (call_msg_time c)
              (call_detection c) s Hen) as (Hs & Hsome & Hnone).
  rewrite Hs. clear Hs.
  set (s0 := set_current_detection_confidence
               (confidence (call_detection c)) s) in *.
  assert (violence_events s0 = violence_events s) as Hsame by reflexivity.
  split.
  - intros Hne. rewrite should_send_other_stream by exact Hne.
    now rewrite Hsame.
  - intros Hsid. specialize (Hev Hsid). unfold call_stream in Hsid.
    rewrite Hev, Hsid in *.
    destruct (violence_events s !! sid) as [ev | ] eqn:L.
    + assert (violence_events s0 !! sid = Some ev) as L0
        by (rewrite Hsame; exact L).
      destruct (should_send_continues (call_time c) sid s0 ev L0)
        as (Hdec & _ & ev' & Hev' & Hst & _ & Hmax & Hcount & _).
      exists ev'. split; [ exact Hev' | ]. split; [ exact Hst | ].
      split; [ exact Hmax | ].
      rewrite <- Hdec in Hcount.
      destruct (fst (fst (should_send_notification (call_time c) sid true s0))).
      * left. split; [ | exact Hcount ].
        destruct (Hsome eq_refl) as [m ->]. discriminate.
      * right. split; [ now apply Hnone | exact Hcount ].
    + assert (violence_events s0 !! sid = None) as L0
        by (rewrite Hsame; exact L).
      rewrite (should_send_opens (call_time c) sid s0 L0) in *.
      cbn [fst snd] in *. split.
      * destruct (Hsome eq_refl) as [m ->]. discriminate.
      * apply lookup_insert_eq.
Qed.

Lemma final_service_cons s (st : Step) (trace : list Step) :
  final_service s (st :: trace) = final_service (step_after st) trace.
Proof. unfold final_service. cbn [map]. apply last_cons_default. Qed.

Lemma sent_for_other sid (st : Step) :
  call_stream (step_call st) <> sid -> sent_for sid st = false.
Proof.
  intros H. unfold sent_for. destruct (step_message st); [ | reflexivity ].
  now apply String.eqb_neq.
Qed.

Lemma sent_for_same sid (st : Step) :
  call_stream (step_call st) = sid ->
  sent_for sid st = match step_message st with Some _ => true | None => false end.
Proof.
  intros H. unfold sent_for. destruct (step_message st); [ | reflexivity ].
  now apply String.eqb_eq.
Qed.

(** A run that finds the episode open: what the episode has become. *)
Lemma run_detections_open sid (calls : list Call) :
  forall s ev,
    enabled s = true ->
    violence_events s !! sid = Some ev ->
    events_only sid calls ->
    let trace := run_detections calls s in
    let s_end := final_service s trace in
    enabled s_end = true
    /\ exists ev',
        violence_events s_end !! sid = Some ev'
        /\ ev_start_time ev' = ev_start_time ev
        /\ max_confidence ev'
           = running_max (max_confidence ev) (confidences_for sid calls)
        /\ notification_count ev'
           = (notification_count ev
              + Z.of_nat (messages_for sid trace))%Z.
Proof.
  induction calls as [ | c calls IH ]; intros s ev Hen Hopen Hcalls trace s_end;
    subst s_end trace.
  - simpl. split; [ exact Hen | ]. exists ev. unfold messages_for. simpl.
    repeat split; [ exact Hopen | lia ].
  - inversion Hcalls as [ | c' calls' Hc Hrest ]; subst c' calls'.
    pose proof (enabled_step sid c s Hen Hc) as [Hother Hsame].
    pose proof (handle_detection_keeps_enabled (call_time c) (call_msg_time c)
                  (call_detection c) s) as Hen'.
    cbn [run_detections].
    destruct (handle_detection (call_time c) (call_msg_time c)
                (call_detection c) s) as [[m s1] tasks].
    cbn [fst snd] in Hother, Hsame, Hen'. rewrite Hen in Hen'.
    rewrite final_service_cons. cbn [step_after].
    rewrite messages_for_cons. unfold confidences_for. cbn [List.filter].
    destruct (String.eqb_spec (call_stream c) sid) as [Hsid | Hne].
    + specialize (Hsame Hsid). rewrite Hopen in Hsame.
      destruct Hsame as (ev1 & Hev1 & Hst1 & Hmax1 & Hcnt).
      destruct (IH s1 ev1 Hen' Hev1 Hrest) as (Hend & ev' & Hev' & Hst & Hmax & Hc').
      split; [ exact Hend | ]. exists ev'.
      split; [ exact Hev' | ]. split; [ congruence | ].
      split.
      { rewrite Hmax, Hmax1. reflexivity. }
      rewrite Hc'. rewrite sent_for_same by exact Hsid. cbn [step_message].
      destruct Hcnt as [[Hm ->] | [-> ->]].
      * destruct m; [ | now elim Hm ]. lia.
      * lia.
    + assert (violence_events s1 !! sid = Some ev) as Hopen1
        by (rewrite (Hother Hne); exact Hopen).
      destruct (IH s1 ev Hen' Hopen1 Hrest)
        as (Hend & ev' & Hev' & Hst & Hmax & Hc').
      split; [ exact Hend | ]. exists ev'.
      rewrite sent_for_other by exact Hne.
      split; [ exact Hev' | ]. split; [ exact Hst | ].
      split; [ exact Hmax | ]. rewrite Hc'. lia.
Qed.

End EpisodeSummary.

(** X23. A whole episode on an enabled service: the stream is idle, an
    event opens the episode, any number of detections follow in which
    every detection of the stream is an event, and then a detection
    without event closes it. The closing call schedules one final
    notification, and that notification reports the time since the
    opening call, the largest confidence among the events after the
    opening one (0.0 at least: the opening confidence is not counted),
    and as total the number of messages that were sent for the stream
    during the episode. *)
Theorem final_notification_reports_the_episode :
  forall (sid : string) (s : TelegramService) (c0 : Call) (rest : list Call)
         (now now_msg : Q) (d_end : DetectionResult),
    enabled s = true ->
    violence_events s !! sid = None ->
    call_stream c0 = sid ->
    events_only sid (c0 :: rest) ->
    stream_id d_end = sid ->
    is_violence d_end = false ->
    let trace := run_detections (c0 :: rest) s in
    let out := handle_detection now now_msg d_end (final_service s trace) in
    fst (fst out) = None
    /\ violence_events (snd (fst out)) !! sid = None
    /\ exists task,
        snd out = [task]
        /\ run_task (snd (fst out)) task
           = Some {| final_stream := sid;
                     final_duration := py_int (now - call_time c0);
                     final_max_confidence :=
                       running_max 0.0 (confidences_for sid rest);
                     final_total_notifications :=
                       Z.of_nat (messages_for sid trace) |}.
Proof.
  intros sid s c0 rest now now_msg d_end Hen Hidle Hc0 Hcalls Hend Hno
    trace out.
  inversion Hcalls as [ | c' calls' Hev0 Hrest ]; subst c' calls'.
  pose proof (enabled_step sid c0 s Hen Hev0) as [_ Hsame].
  specialize (Hsame Hc0). rewrite Hidle in Hsame.
  pose proof (handle_detection_keeps_enabled (call_time c0) (call_msg_time c0)
                (call_detection c0) s) as Hen1.
  subst out trace. cbn [run_detections].
  destruct (handle_detection (call_time c0) (call_msg_time c0)
              (call_detection c0) s) as [[m s1] tasks].
  cbn [fst snd] in Hsame, Hen1. rewrite Hen in Hen1.
  destruct Hsame as [Hm Hopen].
  rewrite final_service_cons. cbn [step_after].
  destruct (run_detections_open sid rest s1 (opening_event (call_time c0))
              Hen1 Hopen Hrest) as (Hen2 & ev & Hev & Hst & Hmax & Hcnt).
  rewrite messages_for_cons, sent_for_same by exact Hc0.
  cbn [step_message]. destruct m as [m | ]; [ | now elim Hm ].
  set (s2 := final_service s1 (run_detections rest s1)) in *.
  unfold handle_detection. rewrite Hen2, Hno, Hend. simpl.
  unfold should_send_notification. simpl. rewrite Hev. simpl.
  split; [ reflexivity | ]. split; [ apply lookup_delete_eq | ].
  eexists. split; [ reflexivity | ].
  simpl. rewrite Hen2. simpl. rewrite Hst, Hmax, Hcnt. simpl.
  f_equal. f_equal. lia.
Qed.

Lemma final_notification_reports_the_episode_witness :
  let c0 := event_call "cam" 0 0.8 in
  let rest := [event_call "cam" 10 0.85] in
  let d_end := {| stream_id := "cam"; timestamp := 20; is_violence := false;
                  confidence := 0.1; frame_data := "" |} in
  let trace := run_detections (c0 :: rest) enabled_service in
  let out := handle_detection 20 20 d_end (final_service enabled_service trace) in
  messages_for "cam" trace = 1%nat
  /\ exists task,
      snd out = [task]
      /\ run_task (snd (fst out)) task
         = Some {| final_stream := "cam"; final_duration := 20;
                   final_max_confidence := 0.85;
                   final_total_notifications := 1 |}.
Proof.
  intros c0 rest d_end trace out. split; [ reflexivity | ].
  destruct (final_notification_reports_the_episode "cam" enabled_service
              c0 rest 20 20 d_end) as (_ & _ & task & Ht & Hr).
  - reflexivity.
  - reflexivity.
  - reflexivity.
  - repeat constructor.
  - reflexivity.
  - reflexivity.
  - exists task. split; [ exact Ht | exact Hr ].
Defined.

(** ** Isolation *)

Lemma should_send_other_stream_clock (now : Q) (sid sid' : string) (b : bool)
    (s : TelegramService) :
  sid' <> sid ->
  last_notification_time (snd (fst (should_send_notification now sid' b s)))
    !! sid
  = last_notification_time s !! sid.
Proof.
  intros Hne. unfold should_send_notification.
  destruct b; simpl.
  - destruct (violence_events s !! sid') as [ev | ]; simpl.
    + destruct (notification_count ev >=? max_notifications s)%Z; simpl;
        [ reflexivity | ].
      destruct (Qgeb _ _); simpl; [ now rewrite lookup_insert_ne | reflexivity ].
    + now rewrite lookup_insert_ne.
  - destruct (violence_events s !! sid'); simpl; now rewrite lookup_delete_ne.
Qed.

(** X24. A disabled service ignores detections altogether: over any run
    of calls it sends no message and its state, episodes included, stays
    exactly as it was, so no episode is opened while it is disabled. *)
Theorem disabled_service_ignores_detections :
  forall (s : TelegramService) (calls : list Call),
    enabled s = false ->
    final_service s (run_detections calls s) = s
    /\ Forall (fun st => step_message st = None /\ step_after st = s)
         (run_detections calls s).
Proof.
  intros s calls Hen. induction calls as [ | c calls [IH1 IH2] ].
  - split; [ reflexivity | constructor ].
  - cbn [run_detections].
    rewrite handle_detection_disabled by exact Hen.
    rewrite final_service_cons. cbn [step_after]. split; [ exact IH1 | ].
    constructor; [ split; reflexivity | exact IH2 ].
Qed.

Lemma disabled_service_ignores_detections_witness :
  final_service new_telegram_service
    (run_detections [event_call "cam" 0 0.9; event_call "cam" 1000 0.9]
       new_telegram_service)
  = new_telegram_service.
Proof.
  apply (disabled_service_ignores_detections new_telegram_service
           [event_call "cam" 0 0.9; event_call "cam" 1000 0.9]).
  reflexivity.
Defined.

(** X25. Streams are throttled independently: a run of detections none
    of which concerns a given stream leaves that stream's episode and
    last-notification time as they were, sends nothing for it, and never
    changes the notification settings. *)
Theorem other_streams_do_not_disturb_an_episode :
  forall (sid : string) (calls : list Call) (s : TelegramService),
    Forall (fun c => call_stream c <> sid) calls ->
    let trace := run_detections calls s in
    let s' := final_service s trace in
    violence_events s' !! sid = violence_events s !! sid
    /\ last_notification_time s' !! sid = last_notification_time s !! sid
    /\ messages_for sid trace = 0%nat
    /\ enabled s' = enabled s
    /\ max_notifications s' = max_notifications s
    /\ notification_interval s' = notification_interval s.
Proof.
  intros sid calls. induction calls as [ | c calls IH ]; intros s Hall trace s';
    subst s' trace.
  - repeat split.
  - inversion Hall as [ | c' calls' Hc Hrest ]; subst c' calls'.
    cbn [run_detections].
    assert (let s1 := snd (fst (handle_detection (call_time c)
                                  (call_msg_time c) (call_detection c) s)) in
            violence_events s1 !! sid = violence_events s !! sid
            /\ last_notification_time s1 !! sid
               = last_notification_time s !! sid
            /\ enabled s1 = enabled s
            /\ max_notifications s1 = max_notifications s
            /\ notification_interval s1 = notification_interval s) as Hstep.
    { destruct (enabled s) eqn:Hen.
      - destruct (handle_detection_enabled (call_time c) (call_msg_time c)
                    (call_detection c) s Hen) as (E & _).
        cbv zeta. rewrite E.
        rewrite should_send_other_stream by exact Hc.
        rewrite should_send_other_stream_clock by exact Hc.
        destruct (should_send_settings (call_time c)
                    (stream_id (call_detection c))
                    (is_violence (call_detection c))
                    (set_current_detection_confidence
                       (confidence (call_detection c)) s))
          as (-> & -> & ->).
        simpl. rewrite Hen. repeat split.
      - rewrite handle_detection_disabled by exact Hen. simpl.
        rewrite Hen. repeat split. }
    destruct (handle_detection (call_time c) (call_msg_time c)
                (call_detection c) s) as [[m s1] tasks].
    cbn [fst snd] in Hstep. cbv zeta in Hstep.
    destruct Hstep as (H1 & H2 & H3 & H4 & H5).
    destruct (IH s1 Hrest) as (I1 & I2 & I3 & I4 & I5 & I6).
    rewrite final_service_cons, messages_for_cons. cbn [step_after].
    rewrite sent_for_other by exact Hc.
    rewrite I1, I2, I3, I4, I5, I6. repeat split; assumption.
Qed.

Lemma other_streams_do_not_disturb_an_episode_witness :
  let calls := [event_call "door" 0 0.9; event_call "yard" 5 0.8] in
  messages_for "cam" (run_detections calls enabled_service) = 0%nat.
Proof.
  intros calls.
  apply (other_streams_do_not_disturb_an_episode "cam" calls enabled_service).
  repeat constructor; discriminate.
Defined.

(** ** Worked instances *)

Lemma detection_results_are_counted_and_attributed_witness :
  let two := {| frame_skip := 1; confidence_threshold := 0.7;
                buffer_size := 2 |} in
  let ops := [Capture 1%nat; Capture 2%nat; Detect 5; Detect 6] in
  let out := run_stream_ops (fun x : nat => x) (fun _ => "jpg")
               (fun _ => Some float32_0_9) two ops
               (new_processor 0 "cam" "rtsp://cam" "") in
  exists new,
    results_queue (fst out) = new
    /\ length new = 2%nat
    /\ detection_count (fst out) = violent_count new.
Proof.
  intros two ops out.
  destruct (detection_results_are_counted_and_attributed nat nat (fun x => x)
              (fun _ => "jpg") (fun _ => Some float32_0_9) two ops
              (new_processor 0 "cam" "rtsp://cam" ""))
    as (new & Hq & Hlen & _ & Hcount & _).
  exists new. split; [ exact Hq | ]. split; [ exact Hlen | exact Hcount ].
Defined.

Lemma non_event_ends_the_episode_witness :
  let s := snd (fst (should_send_notification 0 "yard" true
                       (snd (fst (should_send_notification 0 "cam" true
                                    enabled_service))))) in
  let s' := snd (fst (should_send_notification 30 "cam" false s)) in
  violence_events s' !! "cam" = None
  /\ violence_events s' !! "yard" = violence_events s !! "yard".
Proof.
  intros s s'.
  destruct (non_event_ends_the_episode 30 31 "cam" s)
    as (_ & Hidle & _ & _ & Hother & _).
  split; [ exact Hidle | ].
  apply Hother. discriminate.
Defined.
